(** * DS.Snapshot: a point-in-time view of a live record

    Shallow embedding of [packages/ember-data/lib/system/snapshot.js]:
    the constructor and the methods [attr], [attributes],
    [changedAttributes], [belongsTo] and [hasMany].

    JavaScript objects are mutable and shared, so the embedding keeps an
    explicit store: a heap of plain objects and arrays, a heap of Snapshot
    instances, and the live record graph.  Every method of the Snapshot
    prototype is a computation in a small state-and-exception monad over
    that store. *)

From stdpp Require Import gmap strings list fin_maps relations.
From Stdlib Require Import ZArith.

Local Open Scope string_scope.
Local Open Scope list_scope.

(** ** Values *)

(** Addresses of plain objects / arrays, of Snapshot instances and of
    live records (internal models). *)
Abbreviation addr := nat (only parsing).
Abbreviation sref := nat (only parsing).
Abbreviation mref := nat (only parsing).

(** A JavaScript value.  Numbers are restricted to the integers; objects,
    arrays and snapshots are references into the store. *)
Inductive value :=
| VUndefined
| VNull
| VBool (b : bool)
| VNum (z : Z)
| VStr (s : string)
| VObj (a : addr)
| VSnap (s : sref).

#[export] Instance value_eq_dec : EqDecision value.
Proof. solve_decision. Defined.

(** JavaScript truthiness, as used by [if (id && ...)]. *)
Definition truthy (v : value) : bool :=
  match v with
  | VUndefined | VNull => false
  | VBool b => b
  | VNum z => negb (Z.eqb z 0)
  | VStr s => negb (String.eqb s EmptyString)
  | VObj _ | VSnap _ => true
  end.

(** A heap cell: a plain object (an [EmptyObject] or [{}] used as a map
    from property names to values) or a native array. *)
Inductive hobj :=
| HObject (props : gmap string value)
| HArray (elems : list value).

(** ** The live record graph (external collaborators, section 6 of the
    specification) *)

(** A relationship descriptor: [relationshipMeta.kind], [hasData],
    [inverseRecord] and the ordered [members]. *)
Record relationship := {
  kind : string;
  hasData : bool;
  inverseRecord : option mref;
  members : list mref;
}.

(** The model class of a record, of which only [modelName] is read. *)
Record modelType := { type_modelName : string }.

(** A live record together with its internal model.  [rec_attributes] is
    the declared attribute schema walked by [eachAttribute];
    [rec_props] gives what [get(record, keyName)] reads;
    [rec_changed] is the set of dirty attributes with their old and new
    values; [im_relationships] is [_relationships]. *)
Record internalModel := {
  im_id : value;
  im_type : modelType;
  im_isDeleted : bool;
  im_relationships : gmap string relationship;
  rec_attributes : list string;
  rec_props : gmap string value;
  rec_changed : gmap string (value * value);
}.

(** ** Snapshot instances *)

(** The fields the constructor sets.  [_attributes] is an object of the
    heap, since [attributes()] hands out a copy of it; the four caches
    never leave the snapshot and are kept as maps.  The fields [id] and
    [type] of the source are [snap_id] and [snap_type] here; the
    deprecated [constructor] accessor, which returns [type], is left
    out. *)
Record snapshot := {
  _attributes : addr;
  _belongsToRelationships : gmap string value;
  _belongsToIds : gmap string value;
  _hasManyRelationships : gmap string value;
  _hasManyIds : gmap string value;
  record : mref;
  snap_id : value;
  _internalModel : mref;
  snap_type : modelType;
  modelName : string;
  _changedAttributes : value;
}.

(** ** The store *)

(** Live records are referenced, never copied: a reference always denotes
    a record, so the record graph is a total function.  Plain objects and
    snapshots are allocated at the end of their heaps. *)
Record store := {
  objs : list hobj;
  snaps : list snapshot;
  models : mref → internalModel;
}.

Definition set_objs (f : list hobj → list hobj) (σ : store) : store :=
  {| objs := f (objs σ); snaps := snaps σ; models := models σ |}.
Definition set_snaps (f : list snapshot → list snapshot) (σ : store) : store :=
  {| objs := objs σ; snaps := f (snaps σ); models := models σ |}.
Definition set_models (f : (mref → internalModel) → mref → internalModel)
    (σ : store) : store :=
  {| objs := objs σ; snaps := snaps σ; models := f (models σ) |}.

(** ** Errors and the monad *)

(** Both misuse errors are [Ember.Error]s in the source, told apart by
    their message; the constructors keep the pieces the message is built
    from.  [Unmodelled] marks a run that leaves the embedding (a reference
    that was never allocated, a value of a shape the collaborators never
    produce). *)
Inductive error :=
| UnknownAttributeError (rec : mref) (keyName : string)
| UnknownRelationshipError (expected : string) (rec : mref) (keyName : string)
| Unmodelled.

Inductive outcome (A : Type) :=
| Ok (a : A) (σ : store)
| Throw (e : error).
Arguments Ok {A} a σ.
Arguments Throw {A} e.

(** A computation either returns a value and a new store or throws. *)
Definition M (A : Type) : Type := store → outcome A.

Definition ret {A} (a : A) : M A := λ σ, Ok a σ.
Definition throw {A} (e : error) : M A := λ _, Throw e.
Definition bind {A B} (c : M A) (k : A → M B) : M B :=
  λ σ, match c σ with
       | Ok a σ' => k a σ'
       | Throw e => Throw e
       end.

Notation "'let*' x := c 'in' k" := (bind c (λ x, k))
  (at level 10, x name, c at level 100, k at level 200,
   format "'[v' 'let*'  x  :=  c  'in'  '/' k ']'").
Notation "'do' c 'in' k" := (bind c (λ _, k))
  (at level 10, c at level 100, k at level 200,
   format "'[v' 'do'  c  'in'  '/' k ']'").

(** [forEach] of arrays and ordered sets, and [for] loops over keys. *)
Fixpoint forEach {A} (f : A → M unit) (l : list A) : M unit :=
  match l with
  | [] => ret tt
  | x :: l' => do f x in forEach f l'
  end.

(** *** Primitive store operations *)

(** [new EmptyObject()], [[]], [slice()]: a fresh cell at the end of the
    heap. *)
Definition alloc (o : hobj) : M addr :=
  λ σ, Ok (length (objs σ)) (set_objs (λ h, h ++ [o]) σ).

(** Modelled from the spec: [EmptyObject] is imported from
    [ember-data/system/empty-object], which is not among the sources.
    Sections 3 and 9 of the specification describe the objects made with
    it as empty maps in which an absent key means "not yet computed": an
    object without any property, own or inherited, so that [key in obj]
    holds exactly for the keys stored in it. *)
Definition EmptyObject : gmap string value := ∅.

(** Dereferencing an object or an array. *)
Definition load (a : addr) : M hobj :=
  λ σ, match objs σ !! a with
       | Some o => Ok o σ
       | None => Throw Unmodelled
       end.

(** [obj[key] = v] on a plain object. *)
Definition put (a : addr) (key : string) (v : value) : M unit :=
  let* o := load a in
  match o with
  | HObject props =>
      λ σ, Ok tt (set_objs (λ h : list hobj, <[a := HObject (<[key := v]> props)]> h) σ)
  | HArray _ => throw Unmodelled
  end.

(** [arr.push(v)]. *)
Definition push (a : addr) (v : value) : M unit :=
  let* o := load a in
  match o with
  | HArray elems =>
      λ σ, Ok tt (set_objs (λ h : list hobj, <[a := HArray (elems ++ [v])]> h) σ)
  | HObject _ => throw Unmodelled
  end.

(** Reading and updating the fields of [this]. *)
Definition this (s : sref) : M snapshot :=
  λ σ, match snaps σ !! s with
       | Some sn => Ok sn σ
       | None => Throw Unmodelled
       end.

Definition update_this (s : sref) (f : snapshot → snapshot) : M unit :=
  let* sn := this s in
  λ σ, Ok tt (set_snaps (λ l : list snapshot, <[s := f sn]> l) σ).

(** The current state of a live record. *)
Definition getModel (m : mref) : M internalModel :=
  λ σ, Ok (models σ m) σ.

(** ** Collaborators *)

(** [get(record, keyName)]: the current value of a property of the live
    record, [undefined] when it has none. *)
Definition get (im : internalModel) (keyName : string) : value :=
  default VUndefined (rec_props im !! keyName).

(** Modelled from the spec: [record.changedAttributes()] lives in the
    model class, which is not among the sources.  Section 4.1 and 6 of the
    specification give its contract: it returns a mapping
    [{name -> [old, new]}] of the changed attributes.  The mapping and
    its pairs are objects of the store; the old and new values are put
    into the pairs as they are. *)
Definition record_changedAttributes (m : mref) : M value :=
  let* im := getModel m in
  let* diff := alloc (HObject ∅) in
  do forEach (λ kv : string * (value * value),
                let* arr := alloc (HArray [kv.2.1; kv.2.2]) in
                put diff kv.1 (VObj arr))
             (map_to_list (rec_changed im)) in
  ret (VObj diff).

(** Modelled from the spec: [Ember.copy(v)] without the [deep] flag is the
    framework's shallow copy ("defensive copy", section 4.1): primitives
    are returned as they are, an array or a plain object is copied into a
    fresh one holding the same members.  Snapshots are never stored in
    attributes, so copying one is outside the embedding. *)
Definition Ember_copy (v : value) : M value :=
  match v with
  | VObj a => let* o := load a in let* c := alloc o in ret (VObj c)
  | VSnap _ => throw Unmodelled
  | _ => ret v
  end.

(** Modelled from the spec: [keysFunc] is imported from
    [ember-data/system/object-polyfills], which is not among the sources;
    it stands for [Object.keys], the own property names of an object
    (section 4.1 has [changedAttributes()] copy every entry of the
    mapping). *)
Definition keysFunc (v : value) : M (list string) :=
  match v with
  | VObj a =>
      let* o := load a in
      match o with
      | HObject props => ret (map_to_list props).*1
      | HArray _ => throw Unmodelled
      end
  | _ => throw Unmodelled
  end.

(** [obj[key]] on a value expected to be a plain object. *)
Definition getProp (v : value) (key : string) : M value :=
  match v with
  | VObj a =>
      let* o := load a in
      match o with
      | HObject props => ret (default VUndefined (props !! key))
      | HArray _ => throw Unmodelled
      end
  | _ => throw Unmodelled
  end.

(** ** The Snapshot constructor *)

(** The body of the [eachAttribute] callback,
    [this._attributes[keyName] = get(record, keyName)], run over the
    declared attributes. *)
Definition capture (a : addr) (im : internalModel) : M unit :=
  forEach (λ keyName, put a keyName (get im keyName)) (rec_attributes im).

(** [new Snapshot(internalModel)].  Nothing in it can fail; the new
    instance is put at the end of the snapshot heap. *)
Definition Snapshot (internalModel : mref) : M sref :=
  let* attrs := alloc (HObject EmptyObject) in
  let* im := getModel internalModel in
  do capture attrs im in
  let* changed := record_changedAttributes internalModel in
  λ σ, Ok (length (snaps σ))
          (set_snaps (λ l, l ++ [
             {| _attributes := attrs;
                _belongsToRelationships := EmptyObject;
                _belongsToIds := EmptyObject;
                _hasManyRelationships := EmptyObject;
                _hasManyIds := EmptyObject;
                record := internalModel;
                snap_id := im_id im;
                _internalModel := internalModel;
                snap_type := im_type im;
                modelName := type_modelName (im_type im);
                _changedAttributes := changed |} ]) σ).

(** Modelled from the spec: [internalModel.createSnapshot()] is defined
    with the internal model, which is not among the sources; section 4.2
    says it yields "a freshly constructed child Snapshot" of the record. *)
Definition createSnapshot (m : mref) : M sref := Snapshot m.

(** ** The Snapshot prototype *)

(** The optional second argument of [belongsTo] and [hasMany]. *)
Record options := { opt_id : value; opt_ids : value }.

(** [options && options.id] and [options && options.ids]. *)
Definition option_id (o : option options) : value :=
  match o with Some o => opt_id o | None => VUndefined end.
Definition option_ids (o : option options) : value :=
  match o with Some o => opt_ids o | None => VUndefined end.

Definition set_belongsToRelationships (f : gmap string value → gmap string value)
    (sn : snapshot) : snapshot :=
  {| _attributes := _attributes sn;
     _belongsToRelationships := f (_belongsToRelationships sn);
     _belongsToIds := _belongsToIds sn;
     _hasManyRelationships := _hasManyRelationships sn;
     _hasManyIds := _hasManyIds sn;
     record := record sn; snap_id := snap_id sn;
     _internalModel := _internalModel sn; snap_type := snap_type sn;
     modelName := modelName sn;
     _changedAttributes := _changedAttributes sn |}.
Definition set_belongsToIds (f : gmap string value → gmap string value)
    (sn : snapshot) : snapshot :=
  {| _attributes := _attributes sn;
     _belongsToRelationships := _belongsToRelationships sn;
     _belongsToIds := f (_belongsToIds sn);
     _hasManyRelationships := _hasManyRelationships sn;
     _hasManyIds := _hasManyIds sn;
     record := record sn; snap_id := snap_id sn;
     _internalModel := _internalModel sn; snap_type := snap_type sn;
     modelName := modelName sn;
     _changedAttributes := _changedAttributes sn |}.
Definition set_hasManyRelationships (f : gmap string value → gmap string value)
    (sn : snapshot) : snapshot :=
  {| _attributes := _attributes sn;
     _belongsToRelationships := _belongsToRelationships sn;
     _belongsToIds := _belongsToIds sn;
     _hasManyRelationships := f (_hasManyRelationships sn);
     _hasManyIds := _hasManyIds sn;
     record := record sn; snap_id := snap_id sn;
     _internalModel := _internalModel sn; snap_type := snap_type sn;
     modelName := modelName sn;
     _changedAttributes := _changedAttributes sn |}.
Definition set_hasManyIds (f : gmap string value → gmap string value)
    (sn : snapshot) : snapshot :=
  {| _attributes := _attributes sn;
     _belongsToRelationships := _belongsToRelationships sn;
     _belongsToIds := _belongsToIds sn;
     _hasManyRelationships := _hasManyRelationships sn;
     _hasManyIds := f (_hasManyIds sn);
     record := record sn; snap_id := snap_id sn;
     _internalModel := _internalModel sn; snap_type := snap_type sn;
     modelName := modelName sn;
     _changedAttributes := _changedAttributes sn |}.

(** [attr(keyName)] *)
Definition attr (s : sref) (keyName : string) : M value :=
  let* sn := this s in
  let* o := load (_attributes sn) in
  match o with
  | HObject props =>
      match props !! keyName with
      | Some v => ret v
      | None => throw (UnknownAttributeError (record sn) keyName)
      end
  | HArray _ => throw Unmodelled
  end.


(** [changedAttributes()] *)
Definition changedAttributes (s : sref) : M value :=
  let* sn := this s in
  let* changedAttributes := alloc (HObject EmptyObject) in
  let* changedAttributeKeys := keysFunc (_changedAttributes sn) in
  do forEach (λ key,
                let* v := getProp (_changedAttributes sn) key in
                let* c := Ember_copy v in
                put changedAttributes key c)
             changedAttributeKeys in
  ret (VObj changedAttributes).

(** [belongsTo(keyName, options)] *)
Definition belongsTo (s : sref) (keyName : string) (opts : option options)
    : M value :=
  let id := option_id opts in
  let* sn := this s in
  match (if truthy id then _belongsToIds sn !! keyName else None) with
  | Some cached => ret cached
  | None =>
  match (if truthy id then None else _belongsToRelationships sn !! keyName) with
  | Some cached => ret cached
  | None =>
      let* im := getModel (_internalModel sn) in
      match im_relationships im !! keyName with
      | Some relationship =>
          if String.eqb (kind relationship) "belongsTo" then
            let* result :=
              (if hasData relationship then
                 match inverseRecord relationship with
                 | Some inv =>
                     let* invm := getModel inv in
                     if negb (im_isDeleted invm) then
                       if truthy id then ret (im_id invm)
                       else let* c := createSnapshot inv in ret (VSnap c)
                     else ret VNull
                 | None => ret VNull
                 end
               else ret VUndefined) in
            do (if truthy id
                then update_this s (set_belongsToIds <[keyName := result]>)
                else update_this s
                       (set_belongsToRelationships <[keyName := result]>)) in
            ret result
          else throw (UnknownRelationshipError "belongsTo" (record sn) keyName)
      | None => throw (UnknownRelationshipError "belongsTo" (record sn) keyName)
      end
  end
  end.

(** [hasMany(keyName, options)] *)
Definition hasMany (s : sref) (keyName : string) (opts : option options)
    : M value :=
  let ids := option_ids opts in
  let* sn := this s in
  match (if truthy ids then _hasManyIds sn !! keyName else None) with
  | Some cached => ret cached
  | None =>
  match (if truthy ids then None else _hasManyRelationships sn !! keyName) with
  | Some cached => ret cached
  | None =>
      let* im := getModel (_internalModel sn) in
      match im_relationships im !! keyName with
      | Some relationship =>
          if String.eqb (kind relationship) "hasMany" then
            let* results :=
              (if hasData relationship then
                 let* results := alloc (HArray []) in
                 do forEach (λ member,
                               let* mm := getModel member in
                               if negb (im_isDeleted mm) then
                                 if truthy ids then push results (im_id mm)
                                 else let* c := createSnapshot member in
                                      push results (VSnap c)
                               else ret tt)
                            (members relationship) in
                 ret (VObj results)
               else ret VUndefined) in
            do (if truthy ids
                then update_this s (set_hasManyIds <[keyName := results]>)
                else update_this s
                       (set_hasManyRelationships <[keyName := results]>)) in
            ret results
          else throw (UnknownRelationshipError "hasMany" (record sn) keyName)
      | None => throw (UnknownRelationshipError "hasMany" (record sn) keyName)
      end
  end
  end.

(** ** A small world to run the code on *)

Module Example.

Definition unrelated : internalModel :=
  {| im_id := VNull; im_type := {| type_modelName := "none" |};
     im_isDeleted := false; im_relationships := ∅;
     rec_attributes := []; rec_props := ∅; rec_changed := ∅ |}.

(** Record 0: a post with attributes [title] and [tags] (an array kept
    at address 0), a belongsTo [author] (record 1), a hasMany
    [comments] (records 2 and 3, the latter deleted), a belongsTo
    [editor] and a hasMany [likes] whose data was never loaded, a
    belongsTo [reviewer] to the deleted record 3, and a hasMany
    [drafts] whose only member is deleted. *)
Definition post : internalModel :=
  {| im_id := VStr "1"; im_type := {| type_modelName := "post" |};
     im_isDeleted := false;
     im_relationships :=
       {[ "author" := {| kind := "belongsTo"; hasData := true;
                         inverseRecord := Some 1; members := [] |};
          "editor" := {| kind := "belongsTo"; hasData := false;
                         inverseRecord := None; members := [] |};
          "likes" := {| kind := "hasMany"; hasData := false;
                        inverseRecord := None; members := [] |};
          "reviewer" := {| kind := "belongsTo"; hasData := true;
                           inverseRecord := Some 3; members := [] |};
          "drafts" := {| kind := "hasMany"; hasData := true;
                         inverseRecord := None; members := [3] |};
          "comments" := {| kind := "hasMany"; hasData := true;
                           inverseRecord := None; members := [2; 3] |} ]};
     rec_attributes := ["title"; "tags"];
     rec_props := {[ "title" := VStr "B"; "tags" := VObj 0 ]};
     rec_changed := {[ "title" := (VStr "A", VStr "B") ]} |}.

Definition person (i : string) (deleted : bool) : internalModel :=
  {| im_id := VStr i; im_type := {| type_modelName := "person" |};
     im_isDeleted := deleted; im_relationships := ∅;
     rec_attributes := ["name"]; rec_props := {[ "name" := VStr "x" ]};
     rec_changed := ∅ |}.

Definition world : store :=
  {| objs := [HArray [VStr "a"]];
     snaps := [];
     models := λ m, match m with
                    | 0 => post
                    | 1 => person "7" false
                    | 2 => person "2" false
                    | 3 => person "3" true
                    | _ => unrelated
                    end |}.

End Example.

Local Close Scope string_scope.

(** ** Notions used in the statements *)

(** The result of a run without the store it leaves. *)
Definition result {A} (o : outcome A) : A + error :=
  match o with Ok a _ => inl a | Throw e => inr e end.

(** [agree n σ σ']: the first [n] cells of the object heap are the same in
    both stores. *)
Definition agree (n : nat) (σ σ' : store) : Prop :=
  ∀ i, i < n → objs σ' !! i = objs σ !! i.

(** The attribute mapping built by the [eachAttribute] walk. *)
Definition captured (im : internalModel) (props : gmap string value)
    : gmap string value :=
  foldl (λ acc keyName, <[keyName := get im keyName]> acc) props
        (rec_attributes im).

(** What [record.changedAttributes()] hands out: a mapping whose entries
    refer to pairs holding the old and new values of the record. *)
Definition changed_mapping (bound : nat) (σ : store) (im : internalModel)
    (dm : gmap string value) : Prop :=
  ∀ k, match rec_changed im !! k with
       | Some (o, n) =>
           ∃ p, dm !! k = Some (VObj p) ∧ bound ≤ p ∧
                objs σ !! p = Some (HArray [o; n])
       | None => dm !! k = None
       end.

(** [Snapshot_of σ m σ' sn]: [sn] is the snapshot object that the
    constructor builds for record [m] when started in [σ], and [σ'] is the
    store it leaves. *)
Record Snapshot_of (σ : store) (m : mref) (σ' : store) (sn : snapshot)
    : Prop := {
  new_snaps : snaps σ' = snaps σ ++ [sn];
  new_models : models σ' = models σ;
  new_agree : agree (length (objs σ)) σ σ';
  new_length : length (objs σ) < length (objs σ');
  new_attributes : _attributes sn = length (objs σ);
  new_captured :
    objs σ' !! length (objs σ) = Some (HObject (captured (models σ m) ∅));
  new_belongsToRelationships : _belongsToRelationships sn = ∅;
  new_belongsToIds : _belongsToIds sn = ∅;
  new_hasManyRelationships : _hasManyRelationships sn = ∅;
  new_hasManyIds : _hasManyIds sn = ∅;
  new_record : record sn = m;
  new_internalModel : _internalModel sn = m;
  new_id : snap_id sn = im_id (models σ m);
  new_type : snap_type sn = im_type (models σ m);
  new_modelName : modelName sn = type_modelName (im_type (models σ m));
  new_changed :
    ∃ ca dm, _changedAttributes sn = VObj ca ∧
             length (objs σ) < ca ∧
             objs σ' !! ca = Some (HObject dm) ∧
             changed_mapping (length (objs σ)) σ' (models σ m) dm;
  new_changed_source :
    ∃ σa σb, record_changedAttributes m σa = Ok (_changedAttributes sn) σb ∧
             models σa = models σ ∧ objs σ' = objs σb;
}.

(** What a reader sees when looking one level into a value: the value
    itself for a primitive, the members for an object or an array. *)
Inductive shape :=
| SPrim (v : value)
| SObject (props : gmap string value)
| SArray (elems : list value)
| SDangling.

(** [look σ v] reads [v] one level deep in [σ]. *)
Definition look (σ : store) (v : value) : shape :=
  match v with
  | VObj a =>
      match objs σ !! a with
      | Some (HObject props) => SObject props
      | Some (HArray elems) => SArray elems
      | None => SDangling
      end
  | _ => SPrim v
  end.

(** A value [Ember.copy] handles when all of its cells lie below [n]. *)
Definition copyable (n : nat) (v : value) : Prop :=
  match v with
  | VObj p => p < n
  | VSnap _ => False
  | _ => True
  end.

(** [copy_of n r σ v c]: [c] is a shallow copy of [v] in [σ], made in a
    cell at or above [n] and other than [r]. *)
Definition copy_of (n r : nat) (σ : store) (v c : value) : Prop :=
  match v with
  | VObj p => ∃ q, c = VObj q ∧ n ≤ q ∧ q ≠ r ∧ q < length (objs σ) ∧
                   objs σ !! q = objs σ !! p
  | _ => c = v
  end.



(** What a caller reads from [changedAttributes()]: for every member of
    the returned object, the pair it holds. *)
Definition changedAttributes_view (s : sref) (σ : store)
    : option (gmap string shape) :=
  match changedAttributes s σ with
  | Ok (VObj a) σ' =>
      match objs σ' !! a with
      | Some (HObject props) => Some (look σ' <$> props)
      | _ => None
      end
  | _ => None
  end.


(** The cache a call consults and fills, chosen by the truthiness of the
    [id] (or [ids]) option. *)
Definition belongsTo_cache (id : value) (sn : snapshot) : gmap string value :=
  if truthy id then _belongsToIds sn else _belongsToRelationships sn.
Definition hasMany_cache (ids : value) (sn : snapshot) : gmap string value :=
  if truthy ids then _hasManyIds sn else _hasManyRelationships sn.

(** The cache update of a call, [this._belongsToIds[keyName] = result]
    or its three siblings. *)
Definition set_belongsTo_cache (id : value)
    (f : gmap string value → gmap string value) : snapshot → snapshot :=
  if truthy id then set_belongsToIds f else set_belongsToRelationships f.
Definition set_hasMany_cache (ids : value)
    (f : gmap string value → gmap string value) : snapshot → snapshot :=
  if truthy ids then set_hasManyIds f else set_hasManyRelationships f.

(** The identity a child snapshot takes from the record it is made of. *)
Record child_snapshot (σ : store) (m : mref) (csn : snapshot) : Prop := {
  child_record : record csn = m;
  child_internalModel : _internalModel csn = m;
  child_id : snap_id csn = im_id (models σ m);
  child_type : snap_type csn = im_type (models σ m);
  child_modelName : modelName csn = type_modelName (im_type (models σ m));
  child_belongsToRelationships : _belongsToRelationships csn = ∅;
  child_belongsToIds : _belongsToIds csn = ∅;
  child_hasManyRelationships : _hasManyRelationships csn = ∅;
  child_hasManyIds : _hasManyIds csn = ∅;
}.

(** A snapshot that has resolved no relationship yet. *)
Definition empty_caches (sn : snapshot) : Prop :=
  _belongsToRelationships sn = ∅ ∧ _belongsToIds sn = ∅ ∧
  _hasManyRelationships sn = ∅ ∧ _hasManyIds sn = ∅.

(** A descriptor of the wanted kind, as tested by
    [relationship && relationship.relationshipMeta.kind === wanted]. *)
Definition descriptor (σ : store) (sn : snapshot) (keyName wanted : string)
    : option relationship :=
  match im_relationships (models σ (_internalModel sn)) !! keyName with
  | Some rel => if String.eqb (kind rel) wanted then Some rel else None
  | None => None
  end.

(** The value a first [belongsTo] call computes from the descriptor. *)
Definition belongsTo_resolved (σ : store) (rel : relationship) (id : value)
    : value :=
  if hasData rel then
    match inverseRecord rel with
    | Some inv =>
        if im_isDeleted (models σ inv) then VNull
        else if truthy id then im_id (models σ inv)
             else VSnap (length (snaps σ))
    | None => VNull
    end
  else VUndefined.

(** What [hasMany] pushes for a surviving member: its id in identifier
    mode, a snapshot made of it otherwise. *)
Definition member_result (ids : value) (σ σ' : store) (m : mref) (v : value)
    : Prop :=
  if truthy ids then v = im_id (models σ m)
  else ∃ c csn, v = VSnap c ∧ length (snaps σ) ≤ c ∧
                snaps σ' !! c = Some csn ∧ child_snapshot σ m csn.

(** The members that are not deleted, in relationship order. *)
Definition survivors (σ : store) (l : list mref) : list mref :=
  filter (λ m, im_isDeleted (models σ m) = false) l.

(** The four relationship caches of a snapshot:
    [_belongsToRelationships], [_belongsToIds], [_hasManyRelationships]
    and [_hasManyIds]. *)
Inductive slot := BelongsToFull | BelongsToId | HasManyFull | HasManyId.

#[export] Instance slot_eq_dec : EqDecision slot.
Proof. solve_decision. Defined.

Definition cache_of (sl : slot) (sn : snapshot) : gmap string value :=
  match sl with
  | BelongsToFull => _belongsToRelationships sn
  | BelongsToId => _belongsToIds sn
  | HasManyFull => _hasManyRelationships sn
  | HasManyId => _hasManyIds sn
  end.

Definition set_cache (sl : slot) (f : gmap string value → gmap string value)
    : snapshot → snapshot :=
  match sl with
  | BelongsToFull => set_belongsToRelationships f
  | BelongsToId => set_belongsToIds f
  | HasManyFull => set_hasManyRelationships f
  | HasManyId => set_hasManyIds f
  end.

Definition belongsTo_slot (id : value) : slot :=
  if truthy id then BelongsToId else BelongsToFull.
Definition hasMany_slot (ids : value) : slot :=
  if truthy ids then HasManyId else HasManyFull.

(** [cached sl s k v σ]: snapshot [s] holds [v] under key [k] in cache
    [sl]. *)
Definition cached (sl : slot) (s : sref) (keyName : string) (v : value)
    (σ : store) : Prop :=
  ∃ sn, snaps σ !! s = Some sn ∧ cache_of sl sn !! keyName = Some v.

(** Between two calls on a snapshot the live records and the objects of
    the heap may change in any way, snapshots may be made, and
    relationships may be queried on any snapshot. *)
Inductive step : store → store → Prop :=
| step_live σ f g : step σ (set_models f (set_objs g σ))
| step_Snapshot m s σ σ' : Snapshot m σ = Ok s σ' → step σ σ'
| step_belongsTo s keyName opts v σ σ' :
    belongsTo s keyName opts σ = Ok v σ' → step σ σ'
| step_hasMany s keyName opts v σ σ' :
    hasMany s keyName opts σ = Ok v σ' → step σ σ'.

(** The kind of relationship a cache belongs to. *)
Definition slot_kind (sl : slot) : string :=
  match sl with
  | BelongsToFull | BelongsToId => "belongsTo"
  | HasManyFull | HasManyId => "hasMany"
  end.

(** Every key in a relationship cache names a relationship of the kind
    of that cache on the live record.  The constructor starts with empty
    caches, calls only add keys they resolved, and the kinds of the
    relationships of a record are fixed by its model class. *)
Definition caches_follow_schema (σ : store) (sn : snapshot) : Prop :=
  ∀ sl keyName,
    is_Some (cache_of sl sn !! keyName) →
    is_Some (descriptor σ sn keyName (slot_kind sl)).

(** The same, for every snapshot of the store. *)
Definition all_follow_schema (σ : store) : Prop :=
  ∀ s sn, snaps σ !! s = Some sn → caches_follow_schema σ sn.

(** What a caller reads through [attr(keyName)]: the value, and for an
    object or an array its members. *)
Definition attr_content (s : sref) (keyName : string) (σ : store)
    : option shape :=
  match attr s keyName σ with
  | Ok v σ' => Some (look σ' v)
  | Throw _ => None
  end.

(** [in_place n σ1 σ2]: [σ2] comes from [σ1] by mutating, in place,
    objects among the first [n] cells of the heap, and by any change of
    the live records. *)
Definition in_place (n : nat) (σ1 σ2 : store) : Prop :=
  snaps σ2 = snaps σ1 ∧
  length (objs σ2) = length (objs σ1) ∧
  ∀ i, n ≤ i → objs σ2 !! i = objs σ1 !! i.

Module Scenario.
Import Example.
Local Open Scope string_scope.

(** The store after [new Snapshot(post)]. *)
Definition snapshotted : store :=
  match Snapshot 0 world with Ok _ σ => σ | Throw _ => world end.

(** The live record then pushes ["b"] onto its [tags] array. *)
Definition tags_mutated : store :=
  match push 0 (VStr "b") snapshotted with
  | Ok _ σ => σ
  | Throw _ => snapshotted
  end.

(** [{ id: true, ids: true }] *)
Definition ids_only : option options :=
  Some {| opt_id := VBool true; opt_ids := VBool true |}.

(** The stores after a first [belongsTo('author', { id: true })] and
    after a first [hasMany('comments', { ids: true })]. *)
Definition author_resolved : store :=
  match belongsTo 0 "author" ids_only snapshotted with
  | Ok _ σ => σ
  | Throw _ => snapshotted
  end.
Definition comments_resolved : store :=
  match hasMany 0 "comments" ids_only snapshotted with
  | Ok _ σ => σ
  | Throw _ => snapshotted
  end.

(** Every live record is then replaced by one without relationships. *)
Definition graph_wiped (σ : store) : store :=
  set_models (λ _ _, unrelated) (set_objs (λ h, h) σ).
End Scenario.

(** * Proofs *)

(** ** Reasoning about runs *)

(** A bind runs its continuation on what its first part returns. *)
Lemma bind_run {A B} (c : M A) (k : A → M B) σ a σ' :
  c σ = Ok a σ' → bind c k σ = k a σ'.
Proof. unfold bind. by intros ->. Qed.

Lemma alloc_run o σ :
  alloc o σ = Ok (length (objs σ)) (set_objs (λ h, h ++ [o]) σ).
Proof. reflexivity. Qed.

Lemma load_run a o σ : objs σ !! a = Some o → load a σ = Ok o σ.
Proof. unfold load. by intros ->. Qed.

Lemma this_run s sn σ : snaps σ !! s = Some sn → this s σ = Ok sn σ.
Proof. unfold this. by intros ->. Qed.

Lemma put_run a key v props σ :
  objs σ !! a = Some (HObject props) →
  put a key v σ
  = Ok tt (set_objs (λ h, <[a := HObject (<[key := v]> props)]> h) σ).
Proof. intros H. unfold put. by rewrite (bind_run _ _ _ _ _ (load_run _ _ _ H)). Qed.

Lemma push_run a v elems σ :
  objs σ !! a = Some (HArray elems) →
  push a v σ
  = Ok tt (set_objs (λ h, <[a := HArray (elems ++ [v])]> h) σ).
Proof. intros H. unfold push. by rewrite (bind_run _ _ _ _ _ (load_run _ _ _ H)). Qed.

Lemma update_this_run s f sn σ :
  snaps σ !! s = Some sn →
  update_this s f σ = Ok tt (set_snaps (λ l, <[s := f sn]> l) σ).
Proof.
  intros H. unfold update_this. by rewrite (bind_run _ _ _ _ _ (this_run _ _ _ H)).
Qed.

Lemma agree_refl n σ : agree n σ σ.
Proof. by intros i _. Qed.

(** *** The constructor *)

(** The keys of the capture are the attributes walked, each with the value
    [get] reads. *)
Lemma captured_lookup_aux im (l : list string) (props : gmap string value) k :
  foldl (λ acc keyName, <[keyName := get im keyName]> acc) props l !! k
  = if decide (k ∈ l) then Some (get im k) else props !! k.
Proof.
  revert props. induction l as [|x l IH]; intros props; cbn [foldl].
  - case_decide; [set_solver | done].
  - rewrite IH. destruct (decide (x = k)) as [->|Hne].
    + rewrite lookup_insert_eq. repeat case_decide; set_solver.
    + rewrite lookup_insert_ne by done.
      destruct (decide (k ∈ l)) as [Hl|Hl].
      * by rewrite decide_True by (by apply list_elem_of_further).
      * rewrite decide_False; [done|].
        intros [?|?]%elem_of_cons; congruence.
Qed.

Lemma captured_lookup im k :
  captured im ∅ !! k
  = if decide (k ∈ rec_attributes im) then Some (get im k) else None.
Proof. unfold captured. by rewrite captured_lookup_aux, lookup_empty. Qed.

(** The [eachAttribute] walk succeeds on a plain object and writes only that
    object. *)
Lemma capture_run a im σ props :
  objs σ !! a = Some (HObject props) →
  ∃ σ', capture a im σ = Ok tt σ' ∧
        objs σ' = <[a := HObject (captured im props)]> (objs σ) ∧
        snaps σ' = snaps σ ∧ models σ' = models σ.
Proof.
  unfold capture, captured. generalize (rec_attributes im) as l.
  intros l. revert σ props. induction l as [|x l IH]; intros σ props Ha; simpl.
  - exists σ. split_and!; [done| |done|done].
    symmetry. by apply list_insert_id.
  - rewrite (bind_run _ _ _ _ _ (put_run a x (get im x) props σ Ha)).
    set (σ1 := set_objs _ σ).
    destruct (IH σ1 (<[x := get im x]> props)) as (σ' & Hrun & Ho & Hs & Hm).
    { subst σ1. simpl. apply list_lookup_insert_eq. by eapply lookup_lt_Some. }
    exists σ'. split_and!; [done| |done|done].
    rewrite Ho. subst σ1. simpl. by rewrite list_insert_insert_eq.
Qed.

(** Invariant of the loop of [record.changedAttributes()]: every pair is a
    new array, the mapping [d] gets an entry for it, and no other cell is
    written. *)
Lemma changed_loop_run d (l : list (string * (value * value))) :
  ∀ σ dm, NoDup l.*1 → objs σ !! d = Some (HObject dm) →
  ∃ σ' dm',
    forEach (λ kv : string * (value * value),
               let* arr := alloc (HArray [kv.2.1; kv.2.2]) in
               put d kv.1 (VObj arr)) l σ = Ok tt σ' ∧
    snaps σ' = snaps σ ∧ models σ' = models σ ∧
    length (objs σ) ≤ length (objs σ') ∧
    (∀ i, i < length (objs σ) → i ≠ d → objs σ' !! i = objs σ !! i) ∧
    objs σ' !! d = Some (HObject dm') ∧
    (∀ k, k ∉ l.*1 → dm' !! k = dm !! k) ∧
    (∀ k o n, (k, (o, n)) ∈ l →
       ∃ p, dm' !! k = Some (VObj p) ∧ length (objs σ) ≤ p ∧
            objs σ' !! p = Some (HArray [o; n])).
Proof.
  induction l as [|[k [o n]] l IH]; intros σ dm Hnd Hd; cbn [forEach].
  - exists σ, dm. split_and!; try done. intros k o n Hin. by apply elem_of_nil in Hin.
  - apply NoDup_cons in Hnd as [Hk Hnd].
    pose proof (lookup_lt_Some _ _ _ Hd) as Hlt.
    cbn [fst snd]. unfold bind at 1. unfold bind at 1. rewrite alloc_run.
    set (σ1 := set_objs _ σ).
    assert (Hd1 : objs σ1 !! d = Some (HObject dm)).
    { subst σ1. simpl. by rewrite lookup_app_l. }
    rewrite (put_run _ _ _ _ _ Hd1).
    set (σ2 := set_objs _ σ1).
    assert (Hlen2 : length (objs σ2) = S (length (objs σ))).
    { subst σ2 σ1. simpl. rewrite length_insert, length_app. simpl. lia. }
    destruct (IH σ2 (<[k := VObj (length (objs σ))]> dm) Hnd)
      as (σ' & dm' & Hrun & Hs & Hm & Hlen & Hagree & Hd' & Hout & Hin).
    { subst σ2. simpl. apply list_lookup_insert_eq. subst σ1. simpl.
      rewrite length_app. simpl. lia. }
    exists σ', dm'. split_and!; try done.
    + lia.
    + intros i Hi Hne. rewrite Hagree by (try done; lia).
      subst σ2 σ1. simpl. rewrite list_lookup_insert_ne by done.
      by rewrite lookup_app_l.
    + intros k' Hk'. rewrite fmap_cons in Hk'.
      apply not_elem_of_cons in Hk' as [Hne Hk']. rewrite Hout by done.
      apply lookup_insert_ne. simpl in Hne. congruence.
    + intros k' o' n' Hel. apply elem_of_cons in Hel as [[= -> -> ->]|Hel].
      * exists (length (objs σ)). split_and!; [|done|].
        -- rewrite Hout by done. apply lookup_insert_eq.
        -- rewrite Hagree by lia. subst σ2 σ1. simpl.
           rewrite list_lookup_insert_ne by lia.
           by rewrite lookup_app_r, Nat.sub_diag by lia.
      * destruct (Hin k' o' n' Hel) as (p & Hp & Hle & Hcell).
        exists p. split_and!; [done|lia|done].
Qed.

Lemma record_changedAttributes_run m σ :
  ∃ σ' dm,
    record_changedAttributes m σ = Ok (VObj (length (objs σ))) σ' ∧
    snaps σ' = snaps σ ∧ models σ' = models σ ∧
    agree (length (objs σ)) σ σ' ∧
    length (objs σ) < length (objs σ') ∧
    objs σ' !! length (objs σ) = Some (HObject dm) ∧
    changed_mapping (length (objs σ)) σ' (models σ m) dm.
Proof.
  unfold record_changedAttributes, getModel.
  unfold bind at 1. unfold bind at 1. rewrite alloc_run.
  set (σ1 := set_objs _ σ).
  assert (Hd : objs σ1 !! length (objs σ) = Some (HObject ∅)).
  { subst σ1. simpl. by rewrite lookup_app_r, Nat.sub_diag by lia. }
  destruct (changed_loop_run (length (objs σ))
              (map_to_list (rec_changed (models σ m))) σ1 ∅
              (NoDup_fst_map_to_list _) Hd)
    as (σ' & dm & Hrun & Hs & Hm & Hlen & Hagree & Hd' & Hout & Hin).
  assert (Hlen1 : length (objs σ1) = S (length (objs σ))).
  { subst σ1. simpl. rewrite length_app. simpl. lia. }
  exists σ', dm. rewrite (bind_run _ _ _ _ _ Hrun).
  split_and!; try done.
  - intros i Hi. rewrite Hagree by lia. subst σ1. simpl. by rewrite lookup_app_l.
  - lia.
  - intros k. destruct (rec_changed (models σ m) !! k) as [[o n]|] eqn:Hk.
    + destruct (Hin k o n) as (p & Hp & Hle & Hcell);
        [by apply elem_of_map_to_list|].
      exists p. split_and!; [done|lia|done].
    + rewrite Hout, lookup_empty; [done|].
      intros Hel. apply list_elem_of_fmap in Hel as ([k' [o n]] & -> & Hel).
      apply elem_of_map_to_list in Hel. simpl in Hk. congruence.
Qed.

(** The constructor always returns, and builds the snapshot at the end of
    the snapshot heap. *)
Lemma Snapshot_run m σ :
  ∃ σ' sn, Snapshot m σ = Ok (length (snaps σ)) σ' ∧ Snapshot_of σ m σ' sn.
Proof.
  unfold Snapshot, getModel.
  unfold bind at 1. rewrite alloc_run. set (σ1 := set_objs _ σ).
  unfold bind at 1.
  assert (Ha : objs σ1 !! length (objs σ) = Some (HObject ∅)).
  { subst σ1. simpl. by rewrite lookup_app_r, Nat.sub_diag by lia. }
  destruct (capture_run (length (objs σ)) (models σ1 m) σ1 ∅ Ha)
    as (σ2 & Hcap & Ho2 & Hs2 & Hm2).
  simpl in Hcap, Ho2, Hs2, Hm2.
  rewrite (bind_run _ _ _ _ _ Hcap).
  destruct (record_changedAttributes_run m σ2)
    as (σ3 & dm & Hrca & Hs3 & Hm3 & Hagree3 & Hlen3 & Hd3 & Hdm).
  rewrite (bind_run _ _ _ _ _ Hrca).
  assert (Hlen2 : length (objs σ2) = S (length (objs σ))).
  { rewrite Ho2, length_insert, length_app. simpl. lia. }
  assert (Hs : snaps σ3 = snaps σ) by (by rewrite Hs3, Hs2).
  assert (Hm : models σ3 = models σ) by (by rewrite Hm3, Hm2).
  rewrite Hs. eexists _, _. split; [reflexivity|].
  constructor; simpl; [by rewrite Hs|..]; try done.
  - intros i Hi. rewrite Hagree3 by lia. rewrite Ho2.
    rewrite list_lookup_insert_ne by lia. by rewrite lookup_app_l.
  - lia.
  - rewrite Hagree3 by lia. rewrite Ho2. apply list_lookup_insert_eq.
    rewrite length_app. simpl. lia.
  - exists (length (objs σ2)), dm. split_and!; try done; [lia|].
    rewrite Hm2 in Hdm. intros k. specialize (Hdm k). simpl in Hdm.
    destruct (rec_changed (models σ m) !! k) as [[o n]|]; [|done].
    destruct Hdm as (p & Hp & Hle & Hcell). exists p.
    split_and!; [done|lia|done].
  - by exists σ2, σ3.
Qed.

(** *** attr *)

Lemma attr_run s keyName sn props σ :
  snaps σ !! s = Some sn →
  objs σ !! _attributes sn = Some (HObject props) →
  attr s keyName σ
  = match props !! keyName with
    | Some v => Ok v σ
    | None => Throw (UnknownAttributeError (record sn) keyName)
    end.
Proof.
  intros Hs Ha. unfold attr.
  rewrite (bind_run _ _ _ _ _ (this_run _ _ _ Hs)).
  rewrite (bind_run _ _ _ _ _ (load_run _ _ _ Ha)).
  by destruct (props !! keyName).
Qed.

(** *** Shallow copies *)

Lemma look_agree n σ σ' v : copyable n v → agree n σ σ' → look σ' v = look σ v.
Proof.
  destruct v; simpl; try done. intros Hp Hag. by rewrite (Hag _ Hp).
Qed.

Lemma look_copy_of n r σ v c : copy_of n r σ v c → look σ c = look σ v.
Proof.
  destruct v; simpl; try (by intros ->).
  intros (q & -> & _ & _ & _ & Hq). simpl. by rewrite Hq.
Qed.

Lemma Ember_copy_run n σ v :
  copyable n v → n ≤ length (objs σ) →
  ∃ c σ', Ember_copy v σ = Ok c σ' ∧
          snaps σ' = snaps σ ∧ models σ' = models σ ∧
          length (objs σ) ≤ length (objs σ') ∧
          (∀ i, i < length (objs σ) → objs σ' !! i = objs σ !! i) ∧
          match v with
          | VObj p => c = VObj (length (objs σ)) ∧
                      length (objs σ') = S (length (objs σ)) ∧
                      objs σ' !! length (objs σ) = objs σ !! p
          | _ => c = v
          end.
Proof.
  intros Hc Hn. destruct v; simpl in Hc; try done;
    try (eexists _, σ; split_and!; [reflexivity|done..]).
  destruct (lookup_lt_is_Some_2 (objs σ) a) as [o Ho]; [lia|].
  exists (VObj (length (objs σ))), (set_objs (λ h, h ++ [o]) σ).
  unfold Ember_copy. rewrite (bind_run _ _ _ _ _ (load_run _ _ _ Ho)).
  split_and!; simpl; try done.
  - rewrite length_app. lia.
  - intros i Hi. by rewrite lookup_app_l.
  - rewrite length_app. simpl. lia.
  - by rewrite lookup_app_r, Nat.sub_diag by lia.
Qed.

Lemma getProp_run a key props σ :
  objs σ !! a = Some (HObject props) →
  getProp (VObj a) key σ = Ok (default VUndefined (props !! key)) σ.
Proof.
  intros H. unfold getProp. by rewrite (bind_run _ _ _ _ _ (load_run _ _ _ H)).
Qed.

Lemma copyable_default n (cm : gmap string value) k :
  (∀ k v, cm !! k = Some v → copyable n v) →
  copyable n (default VUndefined (cm !! k)).
Proof. intros H. destruct (cm !! k) eqn:E; simpl; [by eapply H | done]. Qed.

Lemma copy_of_mono n r σ σ' v c :
  copyable n v → n ≤ r → r < length (objs σ) →
  (∀ i, i < length (objs σ) → i ≠ r → objs σ' !! i = objs σ !! i) →
  length (objs σ) ≤ length (objs σ') →
  copy_of n r σ v c → copy_of n r σ' v c.
Proof.
  intros Hc Hnr Hr Hag Hlen. destruct v; simpl; try done.
  simpl in Hc. intros (q & -> & Hnq & Hqr & Hq & Heq).
  exists q. split_and!; try done; [lia|].
  rewrite !Hag by lia. done.
Qed.

(** Invariant of the loop of [changedAttributes()]: the result object [r]
    gets, for every key handled, a shallow copy of the stored value; the
    cells below [n], the source mapping among them, are not written. *)
Lemma copy_loop_run n ca r cm (l : list string) :
  ∀ σ rm,
    ca < n → n ≤ r →
    (∀ k v, cm !! k = Some v → copyable n v) →
    objs σ !! ca = Some (HObject cm) →
    objs σ !! r = Some (HObject rm) →
    ∃ σ' rm',
      forEach (λ key,
                 let* v := getProp (VObj ca) key in
                 let* c := Ember_copy v in
                 put r key c) l σ = Ok tt σ' ∧
      snaps σ' = snaps σ ∧ models σ' = models σ ∧
      length (objs σ) ≤ length (objs σ') ∧
      (∀ i, i < length (objs σ) → i ≠ r → objs σ' !! i = objs σ !! i) ∧
      objs σ' !! r = Some (HObject rm') ∧
      (∀ k, k ∉ l → rm' !! k = rm !! k) ∧
      (∀ k, k ∈ l →
         ∃ c, rm' !! k = Some c ∧
              copy_of n r σ' (default VUndefined (cm !! k)) c).
Proof.
  induction l as [|x l IH]; intros σ rm Hca Hnr Hcm Hc Hr; cbn [forEach].
  - exists σ, rm. split_and!; try done. intros k Hk. by apply elem_of_nil in Hk.
  - pose proof (lookup_lt_Some _ _ _ Hr) as Hrlt.
    destruct (Ember_copy_run n σ (default VUndefined (cm !! x)))
      as (c & σ1 & Hcopy & Hs1 & Hm1 & Hlen1 & Hag1 & Hshape);
      [by apply copyable_default | lia |].
    assert (Hr1 : objs σ1 !! r = Some (HObject rm)) by (by rewrite Hag1).
    set (σ2 := set_objs (λ h : list hobj, <[r := HObject (<[x := c]> rm)]> h) σ1).
    assert (Hstep : (let* v := getProp (VObj ca) x in
                     let* c := Ember_copy v in
                     put r x c) σ = Ok tt σ2).
    { rewrite (bind_run _ _ _ _ _ (getProp_run ca x cm σ Hc)).
      rewrite (bind_run _ _ _ _ _ Hcopy).
      by rewrite (put_run _ _ _ _ _ Hr1). }
    rewrite (bind_run _ _ _ _ _ Hstep).
    assert (Hlen2 : length (objs σ2) = length (objs σ1)).
    { subst σ2. simpl. by rewrite length_insert. }
    assert (Hag2 : ∀ i, i < length (objs σ) → i ≠ r →
                        objs σ2 !! i = objs σ !! i).
    { intros i Hi Hne. subst σ2. simpl.
      rewrite list_lookup_insert_ne by done. by apply Hag1. }
    assert (Hcopy2 : copy_of n r σ2 (default VUndefined (cm !! x)) c).
    { pose proof (copyable_default n cm x Hcm) as Hcx.
      destruct (default VUndefined (cm !! x)) as [| | | | |p|];
        cbn [copy_of]; try done.
      destruct Hshape as (-> & HlenS & Hcell). simpl in Hcx.
      exists (length (objs σ)). split_and!; [done|lia|lia|rewrite Hlen2; lia|].
      subst σ2. simpl. rewrite !list_lookup_insert_ne by lia.
      rewrite Hcell, Hag1 by lia. done. }
    destruct (IH σ2 (<[x := c]> rm)) as
      (σ' & rm' & Hrun & Hs & Hm & Hlen & Hag & Hr' & Hout & Hin);
      try done.
    { rewrite Hag2 by lia. done. }
    { subst σ2. simpl. apply list_lookup_insert_eq. lia. }
    exists σ', rm'. split_and!; try done.
    + by rewrite Hs.
    + by rewrite Hm.
    + lia.
    + intros i Hi Hne. rewrite Hag by lia. by apply Hag2.
    + intros k Hk. rewrite Hout by set_solver.
      apply lookup_insert_ne. set_solver.
    + intros k Hk. destruct (decide (k ∈ l)) as [Hl|Hl]; [by apply Hin|].
      apply elem_of_cons in Hk as [->|Hk]; [|done].
      exists c. split.
      * rewrite Hout by done. apply lookup_insert_eq.
      * eapply copy_of_mono; [by apply copyable_default|done| |done|done|done].
        lia.
Qed.

(** *** Well-formed snapshots *)





(** *** attributes and changedAttributes *)


Lemma keysFunc_run a props σ :
  objs σ !! a = Some (HObject props) →
  keysFunc (VObj a) σ = Ok (map_to_list props).*1 σ.
Proof.
  intros H. unfold keysFunc. by rewrite (bind_run _ _ _ _ _ (load_run _ _ _ H)).
Qed.

(** [changedAttributes()] on a well-formed snapshot returns a new object
    with a shallow copy of every stored entry. *)
Lemma changedAttributes_run s sn ca cm σ :
  snaps σ !! s = Some sn →
  _changedAttributes sn = VObj ca →
  objs σ !! ca = Some (HObject cm) →
  (∀ k v, cm !! k = Some v → copyable (length (objs σ)) v) →
  ∃ σ' rm,
    changedAttributes s σ = Ok (VObj (length (objs σ))) σ' ∧
    snaps σ' = snaps σ ∧ models σ' = models σ ∧
    agree (length (objs σ)) σ σ' ∧
    objs σ' !! length (objs σ) = Some (HObject rm) ∧
    (∀ k, cm !! k = None → rm !! k = None) ∧
    (∀ k v, cm !! k = Some v →
       ∃ c, rm !! k = Some c ∧
            copy_of (length (objs σ)) (length (objs σ)) σ' v c).
Proof.
  intros Hs Hca Hcm Hcopy. unfold changedAttributes.
  pose proof (lookup_lt_Some _ _ _ Hcm) as Hlt.
  rewrite (bind_run _ _ _ _ _ (this_run _ _ _ Hs)).
  unfold bind at 1. rewrite alloc_run. set (σ1 := set_objs _ σ).
  assert (Hcm1 : objs σ1 !! ca = Some (HObject cm)).
  { subst σ1. simpl. by rewrite lookup_app_l. }
  assert (Hr1 : objs σ1 !! length (objs σ) = Some (HObject ∅)).
  { subst σ1. simpl. by rewrite lookup_app_r, Nat.sub_diag by lia. }
  rewrite Hca. rewrite (bind_run _ _ _ _ _ (keysFunc_run _ _ _ Hcm1)).
  destruct (copy_loop_run (length (objs σ)) ca (length (objs σ)) cm
              (map_to_list cm).*1 σ1 ∅)
    as (σ' & rm & Hrun & Hs' & Hm' & Hlen & Hag & Hr' & Hout & Hin);
    try done.
  rewrite (bind_run _ _ _ _ _ Hrun).
  assert (Hlen1 : length (objs σ1) = S (length (objs σ))).
  { subst σ1. simpl. rewrite length_app. simpl. lia. }
  exists σ', rm. split_and!; try done.
  - intros i Hi. rewrite Hag by lia. subst σ1. simpl. by rewrite lookup_app_l.
  - intros k Hk. rewrite Hout, lookup_empty; [done|].
    intros Hel. apply list_elem_of_fmap in Hel as ([k' v] & -> & Hel).
    apply elem_of_map_to_list in Hel. simpl in Hk. congruence.
  - intros k v Hk. destruct (Hin k) as (c & Hc & Hcp).
    + apply list_elem_of_fmap. exists (k, v). split; [done|].
      by apply elem_of_map_to_list.
    + exists c. split; [done|]. by rewrite Hk in Hcp.
Qed.


Lemma changedAttributes_view_run s sn ca cm σ :
  snaps σ !! s = Some sn →
  _changedAttributes sn = VObj ca →
  objs σ !! ca = Some (HObject cm) →
  (∀ k v, cm !! k = Some v → copyable (length (objs σ)) v) →
  changedAttributes_view s σ = Some (look σ <$> cm).
Proof.
  intros Hs Hca Hcm Hcopy.
  destruct (changedAttributes_run _ _ _ _ _ Hs Hca Hcm Hcopy)
    as (σ' & rm & Hrun & _ & _ & Hag & Hr & Hnone & Hsome).
  unfold changedAttributes_view. rewrite Hrun, Hr. f_equal.
  apply map_eq. intros k. rewrite !lookup_fmap.
  destruct (cm !! k) as [v|] eqn:Hk.
  - destruct (Hsome k v Hk) as (c & -> & Hcp). simpl. f_equal.
    rewrite (look_copy_of _ _ _ _ _ Hcp).
    eapply look_agree; [by eapply Hcopy | done].
  - by rewrite (Hnone k Hk).
Qed.


(** *** Relationship caches *)

Lemma Snapshot_of_child σ0 σ m σ' csn :
  models σ = models σ0 → Snapshot_of σ m σ' csn → child_snapshot σ0 m csn.
Proof. intros Hm H. destruct H. constructor; rewrite <- ?Hm; done. Qed.

Lemma Snapshot_of_empty_caches σ m σ' sn :
  Snapshot_of σ m σ' sn → empty_caches sn.
Proof. intros H. by destruct H. Qed.

(** On a miss both cache tests of [belongsTo] and [hasMany] fall
    through. *)
Ltac cache_miss :=
  repeat match goal with
  | |- context [if truthy ?id then ?c !! ?k else None] =>
      replace (if truthy id then c !! k else None) with (@None value)
        by (by destruct (truthy id))
  | |- context [if truthy ?id then None else ?c !! ?k] =>
      replace (if truthy id then None else c !! k) with (@None value)
        by (by destruct (truthy id))
  end.

Lemma belongsTo_hit s keyName opts sn v σ :
  snaps σ !! s = Some sn →
  belongsTo_cache (option_id opts) sn !! keyName = Some v →
  belongsTo s keyName opts σ = Ok v σ.
Proof.
  intros Hs Hc. unfold belongsTo, belongsTo_cache in *.
  rewrite (bind_run _ _ _ _ _ (this_run _ _ _ Hs)).
  destruct (truthy (option_id opts)); by rewrite Hc.
Qed.

Lemma hasMany_hit s keyName opts sn v σ :
  snaps σ !! s = Some sn →
  hasMany_cache (option_ids opts) sn !! keyName = Some v →
  hasMany s keyName opts σ = Ok v σ.
Proof.
  intros Hs Hc. unfold hasMany, hasMany_cache in *.
  rewrite (bind_run _ _ _ _ _ (this_run _ _ _ Hs)).
  destruct (truthy (option_ids opts)); by rewrite Hc.
Qed.

Lemma belongsTo_unknown s keyName opts sn σ :
  snaps σ !! s = Some sn →
  belongsTo_cache (option_id opts) sn !! keyName = None →
  descriptor σ sn keyName "belongsTo"%string = None →
  belongsTo s keyName opts σ
  = Throw (UnknownRelationshipError "belongsTo"%string (record sn) keyName).
Proof.
  intros Hs Hc Hd. unfold belongsTo, belongsTo_cache, descriptor in *.
  rewrite (bind_run _ _ _ _ _ (this_run _ _ _ Hs)).
  cache_miss.
  unfold bind, getModel.
  destruct (im_relationships _ !! keyName) as [rel|]; [|done].
  by destruct (String.eqb (kind rel) "belongsTo"%string).
Qed.

Lemma hasMany_unknown s keyName opts sn σ :
  snaps σ !! s = Some sn →
  hasMany_cache (option_ids opts) sn !! keyName = None →
  descriptor σ sn keyName "hasMany"%string = None →
  hasMany s keyName opts σ
  = Throw (UnknownRelationshipError "hasMany"%string (record sn) keyName).
Proof.
  intros Hs Hc Hd. unfold hasMany, hasMany_cache, descriptor in *.
  rewrite (bind_run _ _ _ _ _ (this_run _ _ _ Hs)).
  cache_miss.
  unfold bind, getModel.
  destruct (im_relationships _ !! keyName) as [rel|]; [|done].
  by destruct (String.eqb (kind rel) "hasMany"%string).
Qed.

Lemma descriptor_Some σ sn keyName wanted rel :
  descriptor σ sn keyName wanted = Some rel →
  im_relationships (models σ (_internalModel sn)) !! keyName = Some rel ∧
  String.eqb (kind rel) wanted = true.
Proof.
  unfold descriptor. destruct (im_relationships _ !! keyName) as [r|]; [|done].
  destruct (String.eqb (kind r) wanted) eqn:E; [|done]. by intros [= ->].
Qed.

(** The resolution step of [belongsTo], run on its own. *)
Lemma belongsTo_result_run (rel : relationship) (id : value) σ :
  ∃ σ' new,
    (if hasData rel then
       match inverseRecord rel with
       | Some inv =>
           let* invm := getModel inv in
           if negb (im_isDeleted invm) then
             if truthy id then ret (im_id invm)
             else let* c := createSnapshot inv in ret (VSnap c)
           else ret VNull
       | None => ret VNull
       end
     else ret VUndefined) σ = Ok (belongsTo_resolved σ rel id) σ' ∧
    models σ' = models σ ∧
    agree (length (objs σ)) σ σ' ∧
    snaps σ' = snaps σ ++ new ∧
    (∀ inv, hasData rel = true → inverseRecord rel = Some inv →
            im_isDeleted (models σ inv) = false → truthy id = false →
            ∃ csn, new = [csn] ∧
                   Snapshot inv σ = Ok (length (snaps σ)) σ' ∧
                   Snapshot_of σ inv σ' csn) ∧
    Forall empty_caches new.
Proof.
  unfold belongsTo_resolved.
  assert (Hplain : ∀ v : value, ∃ σ' new,
    ret v σ = Ok v σ' ∧ models σ' = models σ ∧
    agree (length (objs σ)) σ σ' ∧ snaps σ' = snaps σ ++ new ∧ new = []).
  { intros v. exists σ, []. rewrite app_nil_r.
    split_and!; try done. }
  destruct (hasData rel) eqn:Hhas.
  2:{ destruct (Hplain VUndefined) as (σ' & new & ? & ? & ? & ? & ->).
      exists σ', []. split_and!; try done. }
  destruct (inverseRecord rel) as [inv|] eqn:Hinv.
  2:{ destruct (Hplain VNull) as (σ' & new & ? & ? & ? & ? & ->).
      exists σ', []. split_and!; try done. }
  unfold bind at 1, getModel at 1.
  destruct (im_isDeleted (models σ inv)) eqn:Hdel; cbn [negb].
  { destruct (Hplain VNull) as (σ' & new & ? & ? & ? & ? & ->).
    exists σ', []. split_and!; try done. intros ? _ [= <-]. congruence. }
  destruct (truthy id) eqn:Hid.
  { destruct (Hplain (im_id (models σ inv))) as (σ' & new & ? & ? & ? & ? & ->).
    exists σ', []. split_and!; try done. }
  destruct (Snapshot_run inv σ) as (σm & csn & Hnew & Hof).
  unfold createSnapshot. rewrite (bind_run _ _ _ _ _ Hnew).
  exists σm, [csn]. split_and!; [done|..].
  - apply (new_models _ _ _ _ Hof).
  - apply (new_agree _ _ _ _ Hof).
  - apply (new_snaps _ _ _ _ Hof).
  - intros inv' _ [= <-] _ _. by exists csn.
  - repeat constructor; by destruct Hof.
Qed.

(** A first call of [belongsTo] on a relationship of the right kind: it
    returns the resolved value and writes it into the cache of its mode. *)
Lemma belongsTo_resolve s keyName opts sn rel σ :
  snaps σ !! s = Some sn →
  belongsTo_cache (option_id opts) sn !! keyName = None →
  descriptor σ sn keyName "belongsTo"%string = Some rel →
  ∃ σm σ' new,
    belongsTo s keyName opts σ
    = Ok (belongsTo_resolved σ rel (option_id opts)) σ' ∧
    models σ' = models σ ∧
    agree (length (objs σ)) σ σ' ∧
    objs σ' = objs σm ∧
    snaps σ'
    = <[s := set_belongsTo_cache (option_id opts)
               <[keyName := belongsTo_resolved σ rel (option_id opts)]> sn]>
        (snaps σ ++ new) ∧
    (∀ inv, hasData rel = true → inverseRecord rel = Some inv →
            im_isDeleted (models σ inv) = false →
            truthy (option_id opts) = false →
            ∃ csn, new = [csn] ∧
                   Snapshot inv σ = Ok (length (snaps σ)) σm ∧
                   Snapshot_of σ inv σm csn) ∧
    Forall empty_caches new.
Proof.
  intros Hs Hc Hd. apply descriptor_Some in Hd as [Hrel Hkind].
  unfold belongsTo, belongsTo_cache, set_belongsTo_cache in *.
  rewrite (bind_run _ _ _ _ _ (this_run _ _ _ Hs)).
  cache_miss.
  unfold bind at 1. unfold getModel at 1. rewrite Hrel, Hkind.
  destruct (belongsTo_result_run rel (option_id opts) σ)
    as (σm & new & Hrun & Hm & Hag & Hsn & Hchild & Hnew).
  rewrite (bind_run _ _ _ _ _ Hrun).
  assert (Hsm : snaps σm !! s = Some sn).
  { rewrite Hsn. by rewrite lookup_app_l by (by eapply lookup_lt_Some). }
  exists σm.
  destruct (truthy (option_id opts));
    rewrite (bind_run _ _ _ _ _ (update_this_run _ _ _ _ Hsm));
    eexists _, new; (split_and!; [reflexivity|done|done|done| |done|done]);
    simpl; by rewrite Hsn.
Qed.

(** *** hasMany *)

Lemma member_result_mono ids σ0 σ σ1 σ2 m v new :
  models σ = models σ0 →
  length (snaps σ0) ≤ length (snaps σ) →
  snaps σ2 = snaps σ1 ++ new →
  member_result ids σ σ1 m v → member_result ids σ0 σ2 m v.
Proof.
  intros Hm Hlen Hs. unfold member_result. rewrite Hm.
  destruct (truthy ids); [done|].
  intros (c & csn & -> & Hc & Hl & Hch). exists c, csn.
  split_and!; [done|lia| |].
  - rewrite Hs. by apply lookup_app_l_Some.
  - destruct Hch. constructor; rewrite <- ?Hm; done.
Qed.

(** Invariant of [members.forEach]: the array [r] grows by one entry for
    each member that is not deleted, in order; snapshots are only added. *)
Lemma hasMany_loop_run (ids : value) (r : addr) (l : list mref) :
  ∀ σ acc,
    objs σ !! r = Some (HArray acc) →
    ∃ σ' elems new,
      forEach (λ member,
                 let* mm := getModel member in
                 if negb (im_isDeleted mm) then
                   if truthy ids then push r (im_id mm)
                   else let* c := createSnapshot member in
                        push r (VSnap c)
                 else ret tt) l σ = Ok tt σ' ∧
      models σ' = models σ ∧
      snaps σ' = snaps σ ++ new ∧
      length (objs σ) ≤ length (objs σ') ∧
      (∀ i, i < length (objs σ) → i ≠ r → objs σ' !! i = objs σ !! i) ∧
      objs σ' !! r = Some (HArray (acc ++ elems)) ∧
      Forall2 (member_result ids σ σ') (survivors σ l) elems ∧
      Forall empty_caches new.
Proof.
  induction l as [|m l IH]; intros σ acc Hr; cbn [forEach].
  - exists σ, [], []. rewrite !app_nil_r. split_and!; try done.
  - pose proof (lookup_lt_Some _ _ _ Hr) as Hrlt.
    assert (Hstep : ∃ σ1 new1 e1,
      (let* mm := getModel m in
       if negb (im_isDeleted mm) then
         if truthy ids then push r (im_id mm)
         else let* c := createSnapshot m in push r (VSnap c)
       else ret tt) σ = Ok tt σ1 ∧
      models σ1 = models σ ∧ snaps σ1 = snaps σ ++ new1 ∧
      length (objs σ) ≤ length (objs σ1) ∧
      (∀ i, i < length (objs σ) → i ≠ r → objs σ1 !! i = objs σ !! i) ∧
      objs σ1 !! r = Some (HArray (acc ++ e1)) ∧
      Forall2 (member_result ids σ σ1) (survivors σ [m]) e1 ∧
      Forall empty_caches new1).
    { unfold bind at 1, getModel at 1. unfold survivors.
      destruct (im_isDeleted (models σ m)) eqn:Hdel; cbn [negb].
      { exists σ, [], []. rewrite !app_nil_r.
        rewrite filter_cons_False by congruence.
        split_and!; try done. }
      rewrite filter_cons_True by done. rewrite filter_nil.
      destruct (truthy ids) eqn:Hids.
      { rewrite (push_run _ _ _ _ Hr). eexists _, [], [_].
        rewrite app_nil_r. split_and!; [reflexivity|done|done|..]; simpl.
        - by rewrite length_insert.
        - intros i Hi Hne. by rewrite list_lookup_insert_ne.
        - by apply list_lookup_insert_eq.
        - repeat constructor. unfold member_result. by rewrite Hids.
        - constructor. }
      destruct (Snapshot_run m σ) as (σm & csn & Hnew & Hof).
      unfold createSnapshot. rewrite (bind_run _ _ _ _ _ Hnew).
      assert (Hrm : objs σm !! r = Some (HArray acc)).
      { by rewrite (new_agree _ _ _ _ Hof). }
      rewrite (push_run _ _ _ _ Hrm). eexists _, [csn], [_].
      split_and!; [reflexivity|..]; simpl.
      - apply (new_models _ _ _ _ Hof).
      - apply (new_snaps _ _ _ _ Hof).
      - rewrite length_insert. pose proof (new_length _ _ _ _ Hof). lia.
      - intros i Hi Hne. rewrite list_lookup_insert_ne by done.
        by apply (new_agree _ _ _ _ Hof).
      - apply list_lookup_insert_eq. by eapply lookup_lt_Some.
      - repeat constructor. unfold member_result. rewrite Hids.
        exists (length (snaps σ)), csn. split_and!; [done|done| |].
        + simpl. rewrite (new_snaps _ _ _ _ Hof).
          by rewrite lookup_app_r, Nat.sub_diag by lia.
        + by eapply Snapshot_of_child.
      - repeat constructor; by destruct Hof. }
    destruct Hstep
      as (σ1 & new1 & e1 & Hrun1 & Hm1 & Hs1 & Hlen1 & Hag1 & Hr1 & He1 & Hn1).
    rewrite (bind_run _ _ _ _ _ Hrun1).
    destruct (IH σ1 (acc ++ e1) Hr1)
      as (σ' & elems & new & Hrun & Hm & Hs & Hlen & Hag & Hr' & Hel & Hn).
    exists σ', (e1 ++ elems), (new1 ++ new).
    split_and!; try done; [..|by apply Forall_app].
    + by rewrite Hm.
    + by rewrite Hs, Hs1, app_assoc.
    + lia.
    + intros i Hi Hne. rewrite Hag by lia. by apply Hag1.
    + by rewrite app_assoc.
    + change (m :: l) with ([m] ++ l). unfold survivors in *.
      rewrite filter_app. apply Forall2_app.
      * eapply Forall2_impl; [exact He1|]. intros m' v' Hmv.
        eapply (member_result_mono _ σ σ σ1 σ'); [done|done|exact Hs|done].
      * rewrite Hm1 in Hel.
        eapply Forall2_impl; [exact Hel|]. intros m' v' Hmv.
        eapply (member_result_mono _ σ σ1 σ' σ' _ _ []);
          [done| |by rewrite app_nil_r|done].
        rewrite Hs1, length_app. lia.
Qed.

(** The resolution step of [hasMany], run on its own. *)
Lemma hasMany_result_run (rel : relationship) (ids : value) σ :
  ∃ v σ' new,
    (if hasData rel then
       let* results := alloc (HArray []) in
       do forEach (λ member,
                     let* mm := getModel member in
                     if negb (im_isDeleted mm) then
                       if truthy ids then push results (im_id mm)
                       else let* c := createSnapshot member in
                            push results (VSnap c)
                     else ret tt)
                  (members rel) in
       ret (VObj results)
     else ret VUndefined) σ = Ok v σ' ∧
    models σ' = models σ ∧
    agree (length (objs σ)) σ σ' ∧
    snaps σ' = snaps σ ++ new ∧
    Forall empty_caches new ∧
    if hasData rel then
      ∃ elems, v = VObj (length (objs σ)) ∧
               objs σ' !! length (objs σ) = Some (HArray elems) ∧
               Forall2 (member_result ids σ σ') (survivors σ (members rel))
                       elems
    else v = VUndefined ∧ new = [].
Proof.
  destruct (hasData rel).
  2:{ exists VUndefined, σ, []. rewrite app_nil_r. split_and!; try done. }
  unfold bind at 1. rewrite alloc_run. set (σ1 := set_objs _ σ).
  assert (Hr : objs σ1 !! length (objs σ) = Some (HArray [])).
  { subst σ1. simpl. by rewrite lookup_app_r, Nat.sub_diag by lia. }
  destruct (hasMany_loop_run ids (length (objs σ)) (members rel) σ1 [] Hr)
    as (σ' & elems & new & Hrun & Hm & Hs & Hlen & Hag & Hr' & Hel & Hn).
  rewrite (bind_run _ _ _ _ _ Hrun).
  exists (VObj (length (objs σ))), σ', new.
  assert (Hlen1 : length (objs σ1) = S (length (objs σ))).
  { subst σ1. simpl. rewrite length_app. simpl. lia. }
  split_and!; try done.
  - intros i Hi. rewrite Hag by lia. subst σ1. simpl. by rewrite lookup_app_l.
  - exists elems. split_and!; [done|done|].
    eapply Forall2_impl; [exact Hel|]. intros m v Hmv.
    eapply (member_result_mono _ σ σ1 σ' σ' _ _ []);
      [done|done|by rewrite app_nil_r|done].
Qed.

(** A first call of [hasMany] on a relationship of the right kind. *)
Lemma hasMany_resolve s keyName opts sn rel σ :
  snaps σ !! s = Some sn →
  hasMany_cache (option_ids opts) sn !! keyName = None →
  descriptor σ sn keyName "hasMany"%string = Some rel →
  ∃ v σ' new,
    hasMany s keyName opts σ = Ok v σ' ∧
    models σ' = models σ ∧
    agree (length (objs σ)) σ σ' ∧
    snaps σ'
    = <[s := set_hasMany_cache (option_ids opts) <[keyName := v]> sn]>
        (snaps σ ++ new) ∧
    Forall empty_caches new ∧
    if hasData rel then
      ∃ elems, v = VObj (length (objs σ)) ∧
               objs σ' !! length (objs σ) = Some (HArray elems) ∧
               Forall2 (member_result (option_ids opts) σ σ')
                       (survivors σ (members rel)) elems
    else v = VUndefined ∧ new = [].
Proof.
  intros Hs Hc Hd. apply descriptor_Some in Hd as [Hrel Hkind].
  pose proof (lookup_lt_Some _ _ _ Hs) as Hlt.
  unfold hasMany, hasMany_cache, set_hasMany_cache in *.
  rewrite (bind_run _ _ _ _ _ (this_run _ _ _ Hs)).
  cache_miss.
  unfold bind at 1. unfold getModel at 1. rewrite Hrel, Hkind.
  destruct (hasMany_result_run rel (option_ids opts) σ)
    as (v & σm & new & Hrun & Hm & Hag & Hsn & Hn & Hres).
  rewrite (bind_run _ _ _ _ _ Hrun).
  assert (Hsm : snaps σm !! s = Some sn).
  { rewrite Hsn. by rewrite lookup_app_l. }
  assert (Hfinal : ∀ f : snapshot → snapshot,
    let σ' := set_snaps (λ l : list snapshot, <[s := f sn]> l) σm in
    if hasData rel then
      ∃ elems, v = VObj (length (objs σ)) ∧
               objs σ' !! length (objs σ) = Some (HArray elems) ∧
               Forall2 (member_result (option_ids opts) σ σ')
                       (survivors σ (members rel)) elems
    else v = VUndefined ∧ new = []).
  { intros f σ'. destruct (hasData rel); [|done].
    destruct Hres as (elems & -> & Hcell & Hel). exists elems.
    split_and!; [done|done|].
    eapply Forall2_impl; [exact Hel|]. intros m' v' Hmv.
    unfold member_result in *. destruct (truthy (option_ids opts)); [done|].
    destruct Hmv as (c & csn & -> & Hc' & Hl & Hch). exists c, csn.
    split_and!; try done. subst σ'. simpl.
    rewrite list_lookup_insert_ne by lia. done. }
  exists v.
  destruct (truthy (option_ids opts));
    rewrite (bind_run _ _ _ _ _ (update_this_run _ _ _ _ Hsm));
    eexists _, new; (split_and!; [reflexivity|done|done| |done|apply Hfinal]);
    simpl; by rewrite Hsn.
Qed.

(** *** Inversion of successful calls *)

Lemma belongsTo_no_snapshot s keyName opts σ :
  snaps σ !! s = None → belongsTo s keyName opts σ = Throw Unmodelled.
Proof. intros H. unfold belongsTo, bind, this. by rewrite H. Qed.

Lemma hasMany_no_snapshot s keyName opts σ :
  snaps σ !! s = None → hasMany s keyName opts σ = Throw Unmodelled.
Proof. intros H. unfold hasMany, bind, this. by rewrite H. Qed.

(** A call that returns either hit the cache, and changed nothing, or
    resolved the relationship and wrote the cache. *)
Lemma belongsTo_Ok_inv s keyName opts v σ σ' :
  belongsTo s keyName opts σ = Ok v σ' →
  ∃ sn, snaps σ !! s = Some sn ∧
    ((belongsTo_cache (option_id opts) sn !! keyName = Some v ∧ σ' = σ) ∨
     (belongsTo_cache (option_id opts) sn !! keyName = None ∧
      ∃ rel new,
        descriptor σ sn keyName "belongsTo"%string = Some rel ∧
        v = belongsTo_resolved σ rel (option_id opts) ∧
        models σ' = models σ ∧
        agree (length (objs σ)) σ σ' ∧
        snaps σ' = <[s := set_belongsTo_cache (option_id opts)
                             <[keyName := v]> sn]> (snaps σ ++ new) ∧
        Forall empty_caches new)).
Proof.
  intros H. destruct (snaps σ !! s) as [sn|] eqn:Hs.
  2:{ rewrite belongsTo_no_snapshot in H by done. discriminate. }
  exists sn. split; [done|].
  destruct (belongsTo_cache (option_id opts) sn !! keyName) as [c|] eqn:Hc.
  { rewrite (belongsTo_hit _ _ _ _ _ _ Hs Hc) in H. injection H as -> ->. by left. }
  right. split; [done|].
  destruct (descriptor σ sn keyName "belongsTo"%string) as [rel|] eqn:Hd.
  2:{ rewrite (belongsTo_unknown _ _ _ _ _ Hs Hc Hd) in H. discriminate. }
  destruct (belongsTo_resolve _ _ _ _ _ _ Hs Hc Hd)
    as (σm & σ'' & new & Hrun & Hm & Hag & _ & Hsn & _ & Hn).
  rewrite Hrun in H. injection H as <- <-.
  by exists rel, new.
Qed.

Lemma hasMany_Ok_inv s keyName opts v σ σ' :
  hasMany s keyName opts σ = Ok v σ' →
  ∃ sn, snaps σ !! s = Some sn ∧
    ((hasMany_cache (option_ids opts) sn !! keyName = Some v ∧ σ' = σ) ∨
     (hasMany_cache (option_ids opts) sn !! keyName = None ∧
      ∃ rel new,
        descriptor σ sn keyName "hasMany"%string = Some rel ∧
        models σ' = models σ ∧
        agree (length (objs σ)) σ σ' ∧
        snaps σ' = <[s := set_hasMany_cache (option_ids opts)
                             <[keyName := v]> sn]> (snaps σ ++ new) ∧
        Forall empty_caches new)).
Proof.
  intros H. destruct (snaps σ !! s) as [sn|] eqn:Hs.
  2:{ rewrite hasMany_no_snapshot in H by done. discriminate. }
  exists sn. split; [done|].
  destruct (hasMany_cache (option_ids opts) sn !! keyName) as [c|] eqn:Hc.
  { rewrite (hasMany_hit _ _ _ _ _ _ Hs Hc) in H. injection H as -> ->. by left. }
  right. split; [done|].
  destruct (descriptor σ sn keyName "hasMany"%string) as [rel|] eqn:Hd.
  2:{ rewrite (hasMany_unknown _ _ _ _ _ Hs Hc Hd) in H. discriminate. }
  destruct (hasMany_resolve _ _ _ _ _ _ Hs Hc Hd)
    as (v' & σ'' & new & Hrun & Hm & Hag & Hsn & Hn & _).
  rewrite Hrun in H. injection H as <- <-.
  by exists rel, new.
Qed.

(** *** The four caches *)

Lemma belongsTo_cache_slot id sn :
  belongsTo_cache id sn = cache_of (belongsTo_slot id) sn.
Proof. unfold belongsTo_cache, belongsTo_slot. by destruct (truthy id). Qed.

Lemma hasMany_cache_slot ids sn :
  hasMany_cache ids sn = cache_of (hasMany_slot ids) sn.
Proof. unfold hasMany_cache, hasMany_slot. by destruct (truthy ids). Qed.

Lemma set_belongsTo_cache_slot id f :
  set_belongsTo_cache id f = set_cache (belongsTo_slot id) f.
Proof. unfold set_belongsTo_cache, belongsTo_slot. by destruct (truthy id). Qed.

Lemma set_hasMany_cache_slot ids f :
  set_hasMany_cache ids f = set_cache (hasMany_slot ids) f.
Proof. unfold set_hasMany_cache, hasMany_slot. by destruct (truthy ids). Qed.

Lemma cache_of_set_cache sl sl' f sn :
  cache_of sl (set_cache sl' f sn)
  = if decide (sl = sl') then f (cache_of sl sn) else cache_of sl sn.
Proof. by destruct sl, sl'. Qed.

Lemma internalModel_set_cache sl f sn :
  _internalModel (set_cache sl f sn) = _internalModel sn.
Proof. by destruct sl. Qed.

(** A cache write made on a miss keeps every entry that is there. *)
Lemma cached_write sl s k v σ sl' s' k' v' sn' new snaps' :
  cached sl s k v σ →
  snaps σ !! s' = Some sn' →
  cache_of sl' sn' !! k' = None →
  snaps' = <[s' := set_cache sl' <[k' := v']> sn']> (snaps σ ++ new) →
  ∃ sn, snaps' !! s = Some sn ∧ cache_of sl sn !! k = Some v.
Proof.
  intros (sn & Hs & Hc) Hs' Hmiss ->.
  pose proof (lookup_lt_Some _ _ _ Hs) as Hlt.
  destruct (decide (s = s')) as [->|Hne].
  - assert (sn' = sn) as -> by congruence.
    eexists. split.
    + apply list_lookup_insert_eq. rewrite length_app. lia.
    + rewrite cache_of_set_cache. destruct (decide (sl = sl')) as [->|]; [|done].
      rewrite lookup_insert_ne; [done|]. intros ->. congruence.
  - exists sn. split; [|done].
    rewrite list_lookup_insert_ne by done. by rewrite lookup_app_l.
Qed.

(** *** What can happen between two calls *)

Lemma Snapshot_snaps m s σ σ' :
  Snapshot m σ = Ok s σ' → ∃ sn, Snapshot_of σ m σ' sn ∧ s = length (snaps σ).
Proof.
  intros H. destruct (Snapshot_run m σ) as (σ'' & sn & Hrun & Hof).
  rewrite Hrun in H. injection H as <- <-. by exists sn.
Qed.

(** Cache entries are never overwritten or removed. *)
Lemma cached_step sl s k v σ σ' :
  step σ σ' → cached sl s k v σ → cached sl s k v σ'.
Proof.
  intros Hstep Hc. destruct Hstep as [σ f g|m s' σ σ' H|s' k' o' v' σ σ' H|s' k' o' v' σ σ' H].
  - exact Hc.
  - apply Snapshot_snaps in H as (sn' & Hof & _).
    destruct Hc as (sn & Hs & Hc). exists sn. split; [|done].
    rewrite (new_snaps _ _ _ _ Hof). by apply lookup_app_l_Some.
  - apply belongsTo_Ok_inv in H as (sn' & Hs' & [[_ ->]|(Hmiss & rel & new & _ & _ & _ & _ & Hsn & _)]);
      [done|].
    rewrite belongsTo_cache_slot in Hmiss. rewrite set_belongsTo_cache_slot in Hsn.
    by eapply cached_write.
  - apply hasMany_Ok_inv in H as (sn' & Hs' & [[_ ->]|(Hmiss & rel & new & _ & _ & _ & Hsn & _)]);
      [done|].
    rewrite hasMany_cache_slot in Hmiss. rewrite set_hasMany_cache_slot in Hsn.
    by eapply cached_write.
Qed.

Lemma cached_steps sl s k v σ σ' :
  rtc step σ σ' → cached sl s k v σ → cached sl s k v σ'.
Proof. induction 1; eauto using cached_step. Qed.

(** A successful call leaves its result in the cache of its mode. *)
Lemma belongsTo_Ok_cached s k o v σ σ' :
  belongsTo s k o σ = Ok v σ' →
  cached (belongsTo_slot (option_id o)) s k v σ'.
Proof.
  intros H. apply belongsTo_Ok_inv in H
    as (sn & Hs & [[Hc ->]|(Hmiss & rel & new & _ & _ & _ & _ & Hsn & _)]).
  - exists sn. by rewrite <- belongsTo_cache_slot.
  - eexists. rewrite Hsn. split.
    + apply list_lookup_insert_eq. rewrite length_app.
      apply lookup_lt_Some in Hs. lia.
    + rewrite set_belongsTo_cache_slot, cache_of_set_cache.
      rewrite decide_True by done. apply lookup_insert_eq.
Qed.

Lemma hasMany_Ok_cached s k o v σ σ' :
  hasMany s k o σ = Ok v σ' →
  cached (hasMany_slot (option_ids o)) s k v σ'.
Proof.
  intros H. apply hasMany_Ok_inv in H
    as (sn & Hs & [[Hc ->]|(Hmiss & rel & new & _ & _ & _ & Hsn & _)]).
  - exists sn. by rewrite <- hasMany_cache_slot.
  - eexists. rewrite Hsn. split.
    + apply list_lookup_insert_eq. rewrite length_app.
      apply lookup_lt_Some in Hs. lia.
    + rewrite set_hasMany_cache_slot, cache_of_set_cache.
      rewrite decide_True by done. apply lookup_insert_eq.
Qed.

Lemma belongsTo_cached s k o v σ :
  cached (belongsTo_slot (option_id o)) s k v σ → belongsTo s k o σ = Ok v σ.
Proof.
  intros (sn & Hs & Hc). eapply belongsTo_hit; [done|].
  by rewrite belongsTo_cache_slot.
Qed.

Lemma hasMany_cached s k o v σ :
  cached (hasMany_slot (option_ids o)) s k v σ → hasMany s k o σ = Ok v σ.
Proof.
  intros (sn & Hs & Hc). eapply hasMany_hit; [done|].
  by rewrite hasMany_cache_slot.
Qed.

(** The names captured by the constructor are the declared attributes. *)
Lemma captured_names im keyName :
  captured im ∅ !! keyName = None ↔ keyName ∉ rec_attributes im.
Proof. rewrite captured_lookup. case_decide; naive_solver. Qed.

Lemma caches_follow_schema_new σ m σ' sn :
  Snapshot_of σ m σ' sn → caches_follow_schema σ' sn.
Proof.
  intros H sl k [v Hv]. destruct sl; simpl in Hv.
  - by rewrite (new_belongsToRelationships _ _ _ _ H) in Hv.
  - by rewrite (new_belongsToIds _ _ _ _ H) in Hv.
  - by rewrite (new_hasManyRelationships _ _ _ _ H) in Hv.
  - by rewrite (new_hasManyIds _ _ _ _ H) in Hv.
Qed.

(** *** The schema invariant of the caches is kept *)

Lemma descriptor_models σ σ' sn keyName wanted :
  models σ' = models σ →
  descriptor σ' sn keyName wanted = descriptor σ sn keyName wanted.
Proof. intros H. unfold descriptor. by rewrite H. Qed.

Lemma descriptor_set_cache σ sl f sn keyName wanted :
  descriptor σ (set_cache sl f sn) keyName wanted
  = descriptor σ sn keyName wanted.
Proof. unfold descriptor. by rewrite internalModel_set_cache. Qed.

Lemma all_follow_schema_empty σ : snaps σ = [] → all_follow_schema σ.
Proof. intros H s sn Hs. by rewrite H in Hs. Qed.

Lemma all_follow_schema_Snapshot m s σ σ' :
  Snapshot m σ = Ok s σ' → all_follow_schema σ → all_follow_schema σ'.
Proof.
  intros H Hall s' sn' Hs'. apply Snapshot_snaps in H as (sn & Hof & ->).
  rewrite (new_snaps _ _ _ _ Hof) in Hs'.
  apply lookup_app_Some in Hs' as [Hold|[_ Hnew]].
  - intros sl k Hc. rewrite (descriptor_models σ) by apply (new_models _ _ _ _ Hof).
    by eapply Hall.
  - apply list_lookup_singleton_Some in Hnew as [_ <-].
    by eapply caches_follow_schema_new.
Qed.

(** A cache write for a key that names a relationship of the right kind
    keeps the schema invariant. *)
Lemma all_follow_schema_write σ σ' s sn sl keyName v rel new :
  all_follow_schema σ →
  snaps σ !! s = Some sn →
  descriptor σ sn keyName (slot_kind sl) = Some rel →
  models σ' = models σ →
  (∀ c, c ∈ new → caches_follow_schema σ' c) →
  snaps σ' = <[s := set_cache sl <[keyName := v]> sn]> (snaps σ ++ new) →
  all_follow_schema σ'.
Proof.
  intros Hall Hs Hd Hm Hnew Hsn s' sn' Hs'.
  pose proof (lookup_lt_Some _ _ _ Hs) as Hlt.
  rewrite Hsn in Hs'. destruct (decide (s' = s)) as [->|Hne].
  - rewrite list_lookup_insert_eq in Hs' by (rewrite length_app; lia).
    injection Hs' as <-. intros sl' k Hc.
    rewrite descriptor_set_cache, (descriptor_models σ) by done.
    rewrite cache_of_set_cache in Hc.
    destruct (decide (sl' = sl)) as [->|]; [|by eapply Hall].
    destruct (decide (k = keyName)) as [->|]; [by rewrite Hd|].
    rewrite lookup_insert_ne in Hc by done. by eapply Hall.
  - rewrite list_lookup_insert_ne in Hs' by done.
    apply lookup_app_Some in Hs' as [Hold|[_ Hn]].
    + intros sl' k Hc. rewrite (descriptor_models σ) by done. by eapply Hall.
    + apply Hnew. by eapply list_elem_of_lookup_2.
Qed.

Lemma caches_follow_schema_empty σ sn :
  empty_caches sn → caches_follow_schema σ sn.
Proof.
  intros (H1 & H2 & H3 & H4) sl k [v Hv].
  destruct sl; simpl in Hv; rewrite ?H1, ?H2, ?H3, ?H4 in Hv; done.
Qed.

Lemma all_follow_schema_belongsTo s keyName opts v σ σ' :
  belongsTo s keyName opts σ = Ok v σ' →
  all_follow_schema σ → all_follow_schema σ'.
Proof.
  intros H Hall.
  apply belongsTo_Ok_inv in H
    as (sn & Hs & [[_ ->]|(Hmiss & rel & new & Hd & _ & Hm & _ & Hsn & Hn)]);
    [done|].
  rewrite set_belongsTo_cache_slot in Hsn.
  eapply (all_follow_schema_write σ σ' s sn); [done|done| |done| |exact Hsn].
  - unfold belongsTo_slot. destruct (truthy _); exact Hd.
  - intros c Hin. apply caches_follow_schema_empty.
    by eapply (proj1 (Forall_forall _ _) Hn).
Qed.

Lemma all_follow_schema_hasMany s keyName opts v σ σ' :
  hasMany s keyName opts σ = Ok v σ' →
  all_follow_schema σ → all_follow_schema σ'.
Proof.
  intros H Hall.
  apply hasMany_Ok_inv in H
    as (sn & Hs & [[_ ->]|(Hmiss & rel & new & Hd & Hm & _ & Hsn & Hn)]);
    [done|].
  rewrite set_hasMany_cache_slot in Hsn.
  eapply (all_follow_schema_write σ σ' s sn); [done|done| |done| |exact Hsn].
  - unfold hasMany_slot. destruct (truthy _); exact Hd.
  - intros c Hin. apply caches_follow_schema_empty.
    by eapply (proj1 (Forall_forall _ _) Hn).
Qed.

(** Changes of the live records keep the invariant as long as no
    relationship changes its kind or disappears. *)
Lemma all_follow_schema_live σ f g :
  (∀ m keyName rel,
     im_relationships (models σ m) !! keyName = Some rel →
     ∃ rel', im_relationships (f (models σ) m) !! keyName = Some rel' ∧
             kind rel' = kind rel) →
  all_follow_schema σ → all_follow_schema (set_models f (set_objs g σ)).
Proof.
  intros Hkinds Hall s sn Hs sl k Hc.
  destruct (Hall s sn Hs sl k Hc) as [rel Hrel].
  apply descriptor_Some in Hrel as [Hrel Hkind].
  destruct (Hkinds _ _ _ Hrel) as (rel' & Hrel' & Hk').
  exists rel'. unfold descriptor. simpl. by rewrite Hrel', Hk', Hkind.
Qed.



(** * The scenarios of the specification, run on the example world *)

Import Example Scenario.

(** Scenario A: the captured attribute is read back, and a relationship
    whose data was never loaded is unknown. *)
Example scenario_A :
  result (attr 0 "title" snapshotted) = inl (VStr "B") ∧
  result (belongsTo 0 "editor" None snapshotted) = inl VUndefined.
Proof. split; vm_compute; reflexivity. Qed.

(** Scenario B: a belongsTo to record 7 gives ["7"] in identifier mode and
    a snapshot whose id is ["7"] in full mode. *)
Example scenario_B :
  result (belongsTo 0 "author" ids_only snapshotted) = inl (VStr "7") ∧
  ∃ σ' c csn, belongsTo 0 "author" None snapshotted = Ok (VSnap c) σ' ∧
              snaps σ' !! c = Some csn ∧ snap_id csn = VStr "7".
Proof.
  split; [vm_compute; reflexivity|].
  eexists _, _, _. split_and!; vm_compute; reflexivity.
Qed.

(** Scenario C and property P3: of the comments 2 and 3, the latter
    deleted, only the first is listed. *)
Example scenario_C :
  (∃ σ' a, hasMany 0 "comments" ids_only snapshotted = Ok (VObj a) σ' ∧
           objs σ' !! a = Some (HArray [VStr "2"])) ∧
  (∃ σ' a c csn, hasMany 0 "comments" None snapshotted = Ok (VObj a) σ' ∧
                 objs σ' !! a = Some (HArray [VSnap c]) ∧
                 snaps σ' !! c = Some csn ∧ snap_id csn = VStr "2").
Proof.
  split.
  - eexists _, _. split; vm_compute; reflexivity.
  - eexists _, _, _, _. split_and!; vm_compute; reflexivity.
Qed.

(** Scenario D: [title] was changed from ["A"] to ["B"] before the
    snapshot was made. *)
Example scenario_D :
  changedAttributes_view 0 snapshotted
  = Some {[ "title"%string := SArray [VStr "A"; VStr "B"] ]} ∧
  result (attr 0 "title" snapshotted) = inl (VStr "B").
Proof. split; vm_compute; reflexivity. Qed.

(** Property P5. *)
Example unknown_attribute_throws :
  attr 0 "doesNotExist" snapshotted
  = Throw (UnknownAttributeError 0 "doesNotExist").
Proof. vm_compute. reflexivity. Qed.

(** * The properties of the specification *)

(** C1. For every attribute name captured in a Snapshot, [attr(name)]
    returns the value the live record held when the Snapshot was
    constructed, and it goes on returning that value whatever is done to
    the live records afterwards (here: any change [f] of the record
    graph, and more generally any later store that still holds the
    snapshot and its attribute capture). *)
Theorem attr_frozen_at_construction σ m keyName :
  keyName ∈ rec_attributes (models σ m) →
  ∃ s σ1,
    Snapshot m σ = Ok s σ1 ∧
    attr s keyName σ1 = Ok (get (models σ m) keyName) σ1 ∧
    (∀ f, attr s keyName (set_models f σ1)
          = Ok (get (models σ m) keyName) (set_models f σ1)) ∧
    (∀ σ2, snaps σ2 !! s = snaps σ1 !! s →
           objs σ2 !! length (objs σ) = objs σ1 !! length (objs σ) →
           attr s keyName σ2 = Ok (get (models σ m) keyName) σ2).
Proof.
  intros Hin. destruct (Snapshot_run m σ) as (σ1 & sn & Hrun & Hof).
  exists (length (snaps σ)), σ1. split; [done|].
  assert (Hs : snaps σ1 !! length (snaps σ) = Some sn).
  { rewrite (new_snaps _ _ _ _ Hof).
    by rewrite lookup_app_r, Nat.sub_diag by lia. }
  pose proof (new_captured _ _ _ _ Hof) as Hcap.
  pose proof (new_attributes _ _ _ _ Hof) as Hattrs.
  assert (Hgen : ∀ σ2, snaps σ2 !! length (snaps σ) = snaps σ1 !! length (snaps σ) →
                 objs σ2 !! length (objs σ) = objs σ1 !! length (objs σ) →
                 attr (length (snaps σ)) keyName σ2
                 = Ok (get (models σ m) keyName) σ2).
  { intros σ2 Hs2 Ho2. rewrite Hs in Hs2. rewrite Hcap in Ho2.
    rewrite <- Hattrs in Ho2.
    rewrite (attr_run _ _ _ _ _ Hs2 Ho2), captured_lookup.
    by rewrite decide_True. }
  split_and!; [by apply Hgen | | exact Hgen].
  intros f. by apply Hgen.
Qed.

Lemma attr_frozen_at_construction_witness :
  "title"%string ∈ rec_attributes (models world 0) ∧
  ∃ s σ1,
    Snapshot 0 world = Ok s σ1 ∧
    attr s "title" σ1 = Ok (VStr "B") σ1 ∧
    (∀ f, attr s "title" (set_models f σ1) = Ok (VStr "B") (set_models f σ1)) ∧
    (∀ σ2, snaps σ2 !! s = snaps σ1 !! s →
           objs σ2 !! length (objs world) = objs σ1 !! length (objs world) →
           attr s "title" σ2 = Ok (VStr "B") σ2).
Proof.
  assert (H : "title"%string ∈ rec_attributes (models world 0)).
  { vm_compute. apply list_elem_of_here. }
  split; [exact H|].
  exact (attr_frozen_at_construction world 0 "title" H).
Defined.

(** C2. Each relationship is resolved at most once per mode: when a call
    of [belongsTo] or [hasMany] has returned [v], every later call for
    the same name under the same mode returns the same [v] and leaves the
    store as it is, whatever happened to the live records (or to any
    snapshot) in between. *)
Theorem relationship_resolved_once σ σ1 σ2 s keyName opts opts' v :
  rtc step σ1 σ2 →
  (belongsTo s keyName opts σ = Ok v σ1 →
   truthy (option_id opts') = truthy (option_id opts) →
   belongsTo s keyName opts' σ2 = Ok v σ2) ∧
  (hasMany s keyName opts σ = Ok v σ1 →
   truthy (option_ids opts') = truthy (option_ids opts) →
   hasMany s keyName opts' σ2 = Ok v σ2).
Proof.
  intros Hsteps. split; intros Hcall Hmode.
  - apply belongsTo_cached. unfold belongsTo_slot. rewrite Hmode.
    eapply cached_steps; [done|]. by apply belongsTo_Ok_cached in Hcall.
  - apply hasMany_cached. unfold hasMany_slot. rewrite Hmode.
    eapply cached_steps; [done|]. by apply hasMany_Ok_cached in Hcall.
Qed.

Lemma relationship_resolved_once_witness :
  belongsTo 0 "author" ids_only (graph_wiped author_resolved)
  = Ok (VStr "7") (graph_wiped author_resolved) ∧
  hasMany 0 "comments" ids_only (graph_wiped comments_resolved)
  = Ok (VObj 4) (graph_wiped comments_resolved).
Proof.
  split.
  - apply (proj1 (relationship_resolved_once snapshotted author_resolved
                    (graph_wiped author_resolved) 0 "author" ids_only ids_only
                    (VStr "7") (rtc_once _ _ (step_live _ _ _))));
      vm_compute; reflexivity.
  - apply (proj2 (relationship_resolved_once snapshotted comments_resolved
                    (graph_wiped comments_resolved) 0 "comments" ids_only
                    ids_only (VObj 4) (rtc_once _ _ (step_live _ _ _))));
      vm_compute; reflexivity.
Defined.

(** C3. When the descriptor reports [hasData] false, a first call of
    [belongsTo] or [hasMany] returns the unknown sentinel [undefined],
    which is neither [null] nor an array; a [hasMany] with [hasData] true
    and no surviving member returns an empty array, so the two can be
    told apart. *)
Theorem unknown_versus_empty σ s sn keyName opts rel :
  snaps σ !! s = Some sn →
  (belongsTo_cache (option_id opts) sn !! keyName = None →
   descriptor σ sn keyName "belongsTo"%string = Some rel →
   hasData rel = false →
   ∃ σ', belongsTo s keyName opts σ = Ok VUndefined σ') ∧
  (hasMany_cache (option_ids opts) sn !! keyName = None →
   descriptor σ sn keyName "hasMany"%string = Some rel →
   (hasData rel = false →
    ∃ σ', hasMany s keyName opts σ = Ok VUndefined σ') ∧
   (hasData rel = true → survivors σ (members rel) = [] →
    ∃ a σ', hasMany s keyName opts σ = Ok (VObj a) σ' ∧
            objs σ' !! a = Some (HArray []) ∧
            look σ' (VObj a) = SArray [] ∧
            look σ' VUndefined ≠ look σ' (VObj a))) ∧
  VUndefined ≠ VNull ∧ (∀ a, VUndefined ≠ VObj a).
Proof.
  intros Hs. split_and!; try done.
  - intros Hmiss Hd Hno.
    destruct (belongsTo_resolve _ _ _ _ _ _ Hs Hmiss Hd)
      as (σm & σ1 & new & Hrun & _).
    unfold belongsTo_resolved in Hrun. rewrite Hno in Hrun. by exists σ1.
  - intros Hmiss Hd.
    destruct (hasMany_resolve _ _ _ _ _ _ Hs Hmiss Hd)
      as (v & σ1 & new & Hrun & _ & _ & _ & _ & Hres).
    split; intros Hhas; rewrite Hhas in Hres.
    + destruct Hres as [-> _]. by exists σ1.
    + intros Hnone. destruct Hres as (elems & -> & Hcell & Hel).
      rewrite Hnone in Hel. apply Forall2_nil_inv_l in Hel as ->.
      exists (length (objs σ)), σ1. split_and!; try done.
      * simpl. by rewrite Hcell.
      * simpl. by rewrite Hcell.
Qed.

Lemma unknown_versus_empty_witness :
  (∃ σ', belongsTo 0 "editor" None snapshotted = Ok VUndefined σ') ∧
  (∃ σ', hasMany 0 "likes" None snapshotted = Ok VUndefined σ') ∧
  (∃ a σ', hasMany 0 "drafts" None snapshotted = Ok (VObj a) σ' ∧
           objs σ' !! a = Some (HArray []) ∧
           look σ' (VObj a) = SArray [] ∧
           look σ' VUndefined ≠ look σ' (VObj a)).
Proof.
  eassert (Hs : snaps snapshotted !! 0 = Some _) by (vm_compute; reflexivity).
  split_and!.
  - refine (proj1 (unknown_versus_empty snapshotted 0 _ "editor" None
                     {| kind := "belongsTo"; hasData := false;
                        inverseRecord := None; members := [] |} Hs) _ _ _);
      vm_compute; reflexivity.
  - refine (proj1 (proj1 (proj2 (unknown_versus_empty snapshotted 0 _ "likes"
                     None
                     {| kind := "hasMany"; hasData := false;
                        inverseRecord := None; members := [] |} Hs)) _ _) _);
      vm_compute; reflexivity.
  - refine (proj2 (proj1 (proj2 (unknown_versus_empty snapshotted 0 _ "drafts"
                     None
                     {| kind := "hasMany"; hasData := true;
                        inverseRecord := None; members := [3] |} Hs)) _ _)
              _ _);
      vm_compute; reflexivity.
Defined.

(** C4. Deleted related records are left out: a first [belongsTo] whose
    related record is present but deleted returns [null]; a first
    [hasMany] returns an array holding, in relationship order, one entry
    for each member that is not deleted and none for the deleted ones. *)
Theorem deleted_records_excluded σ s sn keyName opts rel :
  snaps σ !! s = Some sn →
  hasData rel = true →
  (belongsTo_cache (option_id opts) sn !! keyName = None →
   descriptor σ sn keyName "belongsTo"%string = Some rel →
   ∀ inv, inverseRecord rel = Some inv →
          im_isDeleted (models σ inv) = true →
          ∃ σ', belongsTo s keyName opts σ = Ok VNull σ') ∧
  (hasMany_cache (option_ids opts) sn !! keyName = None →
   descriptor σ sn keyName "hasMany"%string = Some rel →
   ∃ a elems σ',
     hasMany s keyName opts σ = Ok (VObj a) σ' ∧
     objs σ' !! a = Some (HArray elems) ∧
     Forall2 (member_result (option_ids opts) σ σ')
             (filter (λ m, im_isDeleted (models σ m) = false) (members rel))
             elems).
Proof.
  intros Hs Hhas. split; intros Hmiss Hd.
  - intros inv Hinv Hdel.
    destruct (belongsTo_resolve _ _ _ _ _ _ Hs Hmiss Hd)
      as (σm & σ1 & new & Hrun & _).
    unfold belongsTo_resolved in Hrun. rewrite Hhas, Hinv, Hdel in Hrun.
    by exists σ1.
  - destruct (hasMany_resolve _ _ _ _ _ _ Hs Hmiss Hd)
      as (v & σ1 & new & Hrun & _ & _ & _ & _ & Hres).
    rewrite Hhas in Hres. destruct Hres as (elems & -> & Hcell & Hel).
    by exists (length (objs σ)), elems, σ1.
Qed.

Lemma deleted_records_excluded_witness :
  (∃ σ', belongsTo 0 "reviewer" None snapshotted = Ok VNull σ') ∧
  (∃ a elems σ',
     hasMany 0 "comments" ids_only snapshotted = Ok (VObj a) σ' ∧
     objs σ' !! a = Some (HArray elems) ∧
     Forall2 (member_result (VBool true) snapshotted σ')
             (filter (λ m, im_isDeleted (models snapshotted m) = false) [2; 3])
             elems).
Proof.
  eassert (Hs : snaps snapshotted !! 0 = Some _) by (vm_compute; reflexivity).
  split.
  - refine (proj1 (deleted_records_excluded snapshotted 0 _ "reviewer" None
                     {| kind := "belongsTo"; hasData := true;
                        inverseRecord := Some 3; members := [] |} Hs eq_refl)
              _ _ 3 _ _);
      vm_compute; reflexivity.
  - refine (proj2 (deleted_records_excluded snapshotted 0 _ "comments" ids_only
                     {| kind := "hasMany"; hasData := true;
                        inverseRecord := None; members := [2; 3] |} Hs eq_refl)
              _ _);
      vm_compute; reflexivity.
Defined.

(** C5. [belongsTo(name)] and [hasMany(name)] fail at once with the
    unknown-relationship error whenever [name] has no descriptor on the
    live record, or has one of another kind than the called operation. *)
Theorem unknown_relationship σ s sn keyName opts :
  snaps σ !! s = Some sn →
  caches_follow_schema σ sn →
  ((∀ rel, im_relationships (models σ (_internalModel sn)) !! keyName
           = Some rel → kind rel ≠ "belongsTo"%string) →
   belongsTo s keyName opts σ
   = Throw (UnknownRelationshipError "belongsTo" (record sn) keyName)) ∧
  ((∀ rel, im_relationships (models σ (_internalModel sn)) !! keyName
           = Some rel → kind rel ≠ "hasMany"%string) →
   hasMany s keyName opts σ
   = Throw (UnknownRelationshipError "hasMany" (record sn) keyName)).
Proof.
  intros Hs Hwf.
  assert (Hnone : ∀ wanted,
    (∀ rel, im_relationships (models σ (_internalModel sn)) !! keyName
            = Some rel → kind rel ≠ wanted) →
    descriptor σ sn keyName wanted = None).
  { intros wanted Hk. unfold descriptor.
    destruct (im_relationships _ !! keyName) as [rel|] eqn:Hrel; [|done].
    destruct (String.eqb_spec (kind rel) wanted) as [Heq|]; [|done].
    by destruct (Hk rel). }
  split; intros Hk; specialize (Hnone _ Hk).
  - apply belongsTo_unknown; [done| |done].
    rewrite belongsTo_cache_slot.
    destruct (cache_of _ sn !! keyName) eqn:Hc; [|done].
    destruct (Hwf (belongsTo_slot (option_id opts)) keyName) as [rel Hrel];
      [by rewrite Hc|].
    unfold belongsTo_slot in Hrel. destruct (truthy _); simpl in Hrel; congruence.
  - apply hasMany_unknown; [done| |done].
    rewrite hasMany_cache_slot.
    destruct (cache_of _ sn !! keyName) eqn:Hc; [|done].
    destruct (Hwf (hasMany_slot (option_ids opts)) keyName) as [rel Hrel];
      [by rewrite Hc|].
    unfold hasMany_slot in Hrel. destruct (truthy _); simpl in Hrel; congruence.
Qed.

Lemma unknown_relationship_witness :
  belongsTo 0 "doesNotExist" None snapshotted
  = Throw (UnknownRelationshipError "belongsTo" 0 "doesNotExist") ∧
  hasMany 0 "author" None snapshotted
  = Throw (UnknownRelationshipError "hasMany" 0 "author").
Proof.
  eassert (Hs : snaps snapshotted !! 0 = Some _) by (vm_compute; reflexivity).
  match type of Hs with
  | _ = Some ?sn => assert (Hwf : caches_follow_schema snapshotted sn)
  end.
  { apply caches_follow_schema_empty. repeat split; reflexivity. }
  split.
  - apply (proj1 (unknown_relationship snapshotted 0 _ "doesNotExist" None
                    Hs Hwf)).
    intros rel Hrel. vm_compute in Hrel. discriminate.
  - apply (proj2 (unknown_relationship snapshotted 0 _ "author" None Hs Hwf)).
    intros rel Hrel. vm_compute in Hrel. injection Hrel as <-.
    vm_compute. discriminate.
Defined.

(** C6. [attr(name)] fails, with the unknown-attribute error, exactly
    when [name] is absent from the captured attribute mapping, and for
    every captured name it returns the captured value. *)
Theorem attr_unknown_attribute σ s sn props keyName :
  snaps σ !! s = Some sn →
  objs σ !! _attributes sn = Some (HObject props) →
  (attr s keyName σ = Throw (UnknownAttributeError (record sn) keyName)
   ↔ props !! keyName = None) ∧
  (∀ e, attr s keyName σ = Throw e →
        e = UnknownAttributeError (record sn) keyName ∧
        props !! keyName = None) ∧
  (∀ v, props !! keyName = Some v → attr s keyName σ = Ok v σ).
Proof.
  intros Hs Ha. rewrite (attr_run _ _ _ _ _ Hs Ha).
  destruct (props !! keyName) as [v|]; split_and!; try done.
  - intros v' [= ->]. done.
  - intros e [= <-]. done.
Qed.

Lemma attr_unknown_attribute_witness :
  attr 0 "doesNotExist" snapshotted
  = Throw (UnknownAttributeError 0 "doesNotExist") ∧
  attr 0 "title" snapshotted = Ok (VStr "B") snapshotted.
Proof.
  eassert (Hs : snaps snapshotted !! 0 = Some _) by (vm_compute; reflexivity).
  eassert (Ha : objs snapshotted !! 1 = Some (HObject _))
    by (vm_compute; reflexivity).
  split.
  - apply (proj1 (attr_unknown_attribute snapshotted 0 _ _ "doesNotExist" Hs Ha)).
    vm_compute. reflexivity.
  - apply (proj2 (proj2 (attr_unknown_attribute snapshotted 0 _ _ "title" Hs Ha))).
    vm_compute. reflexivity.
Defined.

(** C7. A first [belongsTo] on a relationship with data whose related
    record is present and not deleted returns, in identifier mode, the id
    of the related record and, in full mode, a snapshot constructed there
    and then from the related record, so that the id of the child
    snapshot is the id of the related record. *)
Theorem belongsTo_present σ s sn keyName opts rel inv :
  snaps σ !! s = Some sn →
  belongsTo_cache (option_id opts) sn !! keyName = None →
  descriptor σ sn keyName "belongsTo"%string = Some rel →
  hasData rel = true →
  inverseRecord rel = Some inv →
  im_isDeleted (models σ inv) = false →
  (truthy (option_id opts) = true →
   ∃ σ', belongsTo s keyName opts σ = Ok (im_id (models σ inv)) σ') ∧
  (truthy (option_id opts) = false →
   ∃ c σm σ' csn,
     belongsTo s keyName opts σ = Ok (VSnap c) σ' ∧
     snaps σ !! c = None ∧
     Snapshot inv σ = Ok c σm ∧
     Snapshot_of σ inv σm csn ∧
     snaps σ' !! c = Some csn ∧
     objs σ' = objs σm ∧
     snap_id csn = im_id (models σ inv)).
Proof.
  intros Hs Hmiss Hd Hhas Hinv Hdel.
  destruct (belongsTo_resolve _ _ _ _ _ _ Hs Hmiss Hd)
    as (σm & σ1 & new & Hrun & Hm & Hag & Hobjs & Hsn & Hchild & _).
  unfold belongsTo_resolved in Hrun. rewrite Hhas, Hinv, Hdel in Hrun.
  split; intros Hid; rewrite Hid in Hrun.
  - by exists σ1.
  - destruct (Hchild inv Hhas Hinv Hdel Hid) as (csn & -> & Hnew & Hof).
    pose proof (lookup_lt_Some _ _ _ Hs) as Hlt.
    exists (length (snaps σ)), σm, σ1, csn.
    split_and!; try done.
    + apply lookup_ge_None. lia.
    + rewrite Hsn. rewrite list_lookup_insert_ne by lia.
      by rewrite lookup_app_r, Nat.sub_diag by lia.
    + apply (new_id _ _ _ _ Hof).
Qed.

Lemma belongsTo_present_witness :
  (∃ σ', belongsTo 0 "author" ids_only snapshotted = Ok (VStr "7") σ') ∧
  (∃ c σm σ' csn,
     belongsTo 0 "author" None snapshotted = Ok (VSnap c) σ' ∧
     snaps snapshotted !! c = None ∧
     Snapshot 1 snapshotted = Ok c σm ∧
     Snapshot_of snapshotted 1 σm csn ∧
     snaps σ' !! c = Some csn ∧
     objs σ' = objs σm ∧
     snap_id csn = VStr "7").
Proof.
  eassert (Hs : snaps snapshotted !! 0 = Some _) by (vm_compute; reflexivity).
  split.
  - refine (proj1 (belongsTo_present snapshotted 0 _ "author" ids_only
                     {| kind := "belongsTo"; hasData := true;
                        inverseRecord := Some 1; members := [] |} 1 Hs
                     _ _ eq_refl eq_refl _) _);
      vm_compute; reflexivity.
  - refine (proj2 (belongsTo_present snapshotted 0 _ "author" None
                     {| kind := "belongsTo"; hasData := true;
                        inverseRecord := Some 1; members := [] |} 1 Hs
                     _ _ eq_refl eq_refl _) _);
      vm_compute; reflexivity.
Defined.



(** C9, as stated, fails: the constructor stores the array held by the
    live record itself, so a later [push] on that array shows through the
    snapshot. *)
Lemma capture_shares_live_objects :
  Snapshot 0 Example.world = Ok 0 Scenario.snapshotted ∧
  get (models Example.world 0) "tags" = VObj 0 ∧
  push 0 (VStr "b") Scenario.snapshotted = Ok tt Scenario.tags_mutated ∧
  attr_content 0 "tags" Scenario.snapshotted = Some (SArray [VStr "a"]) ∧
  attr_content 0 "tags" Scenario.tags_mutated
  = Some (SArray [VStr "a"; VStr "b"]) ∧
  attr_content 0 "tags" Scenario.tags_mutated
  ≠ attr_content 0 "tags" Scenario.snapshotted.
Proof. split_and!; try (vm_compute; reflexivity). vm_compute. discriminate. Qed.

(** C9, amended.  The constructor captures by reference: it stores the
    very values it reads, without copying, and it stores the mapping
    returned by [record.changedAttributes()] as it is.  Whatever is later
    done in place to the objects that existed at construction time,
    [attr] returns the value the record held then, so that an
    object-valued attribute shows the current members of the live object;
    and the pairs of the changed-attribute mapping hold the old and the
    new value of the record as they were. *)
Theorem capture_by_reference σ m :
  ∃ s σ1 sn,
    Snapshot m σ = Ok s σ1 ∧
    snaps σ1 !! s = Some sn ∧
    (∃ σa σb, record_changedAttributes m σa = Ok (_changedAttributes sn) σb ∧
              models σa = models σ ∧ objs σ1 = objs σb) ∧
    ∀ σ2, in_place (length (objs σ)) σ1 σ2 →
      (∀ keyName, keyName ∈ rec_attributes (models σ m) →
         attr s keyName σ2 = Ok (get (models σ m) keyName) σ2 ∧
         attr_content s keyName σ2
         = Some (look σ2 (get (models σ m) keyName))) ∧
      changedAttributes_view s σ2
      = Some ((λ on, SArray [on.1; on.2]) <$> rec_changed (models σ m)).
Proof.
  destruct (Snapshot_run m σ) as (σ1 & sn & Hrun & Hof).
  exists (length (snaps σ)), σ1, sn.
  assert (Hs1 : snaps σ1 !! length (snaps σ) = Some sn).
  { rewrite (new_snaps _ _ _ _ Hof).
    by rewrite lookup_app_r, Nat.sub_diag by lia. }
  split_and!; [done|done|apply (new_changed_source _ _ _ _ Hof)|].
  intros σ2 (Hs2 & Hlen2 & Hkeep).
  assert (Hs : snaps σ2 !! length (snaps σ) = Some sn) by (by rewrite Hs2).
  split.
  - intros k Hk.
    assert (Hattr : attr (length (snaps σ)) k σ2
                    = Ok (get (models σ m) k) σ2).
    { assert (Ha : objs σ2 !! _attributes sn
                   = Some (HObject (captured (models σ m) ∅))).
      { rewrite (new_attributes _ _ _ _ Hof), Hkeep by done.
        apply (new_captured _ _ _ _ Hof). }
      rewrite (attr_run _ _ _ _ _ Hs Ha), captured_lookup.
      by rewrite decide_True. }
    split; [done|]. unfold attr_content. by rewrite Hattr.
  - destruct (new_changed _ _ _ _ Hof) as (ca & dm & Hca & Hlt & Hdm & Hmap).
    assert (Hdm2 : objs σ2 !! ca = Some (HObject dm)).
    { rewrite Hkeep by lia. done. }
    assert (Hcopy : ∀ k v, dm !! k = Some v → copyable (length (objs σ2)) v).
    { intros k v Hk. specialize (Hmap k).
      destruct (rec_changed (models σ m) !! k) as [[o n]|]; [|congruence].
      destruct Hmap as (p & Hp & _ & Hcell). rewrite Hk in Hp.
      injection Hp as ->. simpl. rewrite Hlen2. by eapply lookup_lt_Some. }
    rewrite (changedAttributes_view_run _ _ _ _ _ Hs Hca Hdm2 Hcopy).
    f_equal. apply map_eq. intros k. rewrite !lookup_fmap.
    specialize (Hmap k).
    destruct (rec_changed (models σ m) !! k) as [[o n]|].
    + destruct Hmap as (p & -> & Hle & Hcell). simpl.
      rewrite Hkeep by done. by rewrite Hcell.
    + by rewrite Hmap.
Qed.

(** C10. The unknown outcome is cached like any other: a first call that
    finds [hasData] false returns [undefined] and leaves the key in the
    cache of its mode, and from then on every call under that mode
    returns [undefined] from the cache, also after data has been loaded
    on the live record. *)
Theorem unknown_is_cached σ s sn keyName opts rel :
  snaps σ !! s = Some sn →
  hasData rel = false →
  (belongsTo_cache (option_id opts) sn !! keyName = None →
   descriptor σ sn keyName "belongsTo"%string = Some rel →
   ∃ σ1, belongsTo s keyName opts σ = Ok VUndefined σ1 ∧
         cached (belongsTo_slot (option_id opts)) s keyName VUndefined σ1 ∧
         ∀ σ2, rtc step σ1 σ2 →
               belongsTo s keyName opts σ2 = Ok VUndefined σ2) ∧
  (hasMany_cache (option_ids opts) sn !! keyName = None →
   descriptor σ sn keyName "hasMany"%string = Some rel →
   ∃ σ1, hasMany s keyName opts σ = Ok VUndefined σ1 ∧
         cached (hasMany_slot (option_ids opts)) s keyName VUndefined σ1 ∧
         ∀ σ2, rtc step σ1 σ2 →
               hasMany s keyName opts σ2 = Ok VUndefined σ2).
Proof.
  intros Hs Hno. split; intros Hmiss Hd.
  - destruct (belongsTo_resolve _ _ _ _ _ _ Hs Hmiss Hd)
      as (σm & σ1 & new & Hrun & _).
    unfold belongsTo_resolved in Hrun. rewrite Hno in Hrun.
    exists σ1. split; [done|].
    pose proof (belongsTo_Ok_cached _ _ _ _ _ _ Hrun) as Hc.
    split; [done|]. intros σ2 Hsteps.
    apply belongsTo_cached. by eapply cached_steps.
  - destruct (hasMany_resolve _ _ _ _ _ _ Hs Hmiss Hd)
      as (v & σ1 & new & Hrun & _ & _ & _ & _ & Hres).
    rewrite Hno in Hres. destruct Hres as [-> _].
    exists σ1. split; [done|].
    pose proof (hasMany_Ok_cached _ _ _ _ _ _ Hrun) as Hc.
    split; [done|]. intros σ2 Hsteps.
    apply hasMany_cached. by eapply cached_steps.
Qed.

Lemma unknown_is_cached_witness :
  (∃ σ1, belongsTo 0 "editor" None snapshotted = Ok VUndefined σ1 ∧
         cached BelongsToFull 0 "editor" VUndefined σ1 ∧
         ∀ σ2, rtc step σ1 σ2 → belongsTo 0 "editor" None σ2 = Ok VUndefined σ2) ∧
  (∃ σ1, hasMany 0 "likes" None snapshotted = Ok VUndefined σ1 ∧
         cached HasManyFull 0 "likes" VUndefined σ1 ∧
         ∀ σ2, rtc step σ1 σ2 → hasMany 0 "likes" None σ2 = Ok VUndefined σ2).
Proof.
  eassert (Hs : snaps snapshotted !! 0 = Some _) by (vm_compute; reflexivity).
  split.
  - eapply (proj1 (unknown_is_cached snapshotted 0 _ "editor" None
                     {| kind := "belongsTo"; hasData := false;
                        inverseRecord := None; members := [] |} Hs eq_refl));
      vm_compute; reflexivity.
  - eapply (proj2 (unknown_is_cached snapshotted 0 _ "likes" None
                     {| kind := "hasMany"; hasData := false;
                        inverseRecord := None; members := [] |} Hs eq_refl));
      vm_compute; reflexivity.
Defined.
